(** * safesocket on Plan 9: the /srv rendezvous-pipe backend

    A shallow embedding of [safesocket/safesocket_plan9.go] and the
    properties its specification states about it.

    The Go file is thirty lines of logic on top of three layers it does
    not define: the Plan 9 kernel (descriptors, pipes, the [/srv]
    registry of devsrv), package [golang.org/x/sys/plan9] (thin system
    call wrappers) and package [os] ([*os.File]).  Those layers are
    modelled first, in modules [Kernel] and [Os], as state transformers
    over one [world]; module [Safesocket] is then a line-by-line
    transcription of the Go source on top of them. *)

From Stdlib Require Import Strings.String Strings.Ascii Strings.Byte List ZArith Lia.
From Stdlib Require Import DecimalString DecimalNat.
From stdpp Require Import base option gmap strings list.
From Equations Require Import Equations.

Local Open Scope string_scope.
Local Open Scope list_scope.
Local Open Scope nat_scope.

(** ** Errors

    Go's [error] values that can flow through this file. *)

Inductive error : Type :=
| ErrorString (s : string)   (* syscall.ErrorString: a kernel errstr *)
| ErrorsNew (s : string)     (* errors.New(s) *)
| ErrInvalid                 (* os.ErrInvalid *)
| ErrClosed                  (* os.ErrClosed: "file already closed" *)
| ErrShortWrite              (* io.ErrShortWrite *)
| EOF.                       (* io.EOF *)

(** [syscall.EPLAN9 = NewError("not supported by plan 9")]. *)
Definition EPLAN9 : error := ErrorString "not supported by plan 9".

(** Go's [(T, error)] results of calls that cannot block. *)
Inductive result (A : Type) : Type :=
| Ok (a : A)
| Err (e : error).
Arguments Ok {A} a.
Arguments Err {A} e.

(** Results of calls that may wait for the peer: [Block] says that the
    call has not returned (it is parked in a kernel read with nothing to
    deliver). *)
Inductive outcome (A : Type) : Type :=
| Ret (a : A)
| Fail (e : error)
| Block.
Arguments Ret {A} a.
Arguments Fail {A} e.
Arguments Block {A}.

(** ** The world: kernel tables, the Go heap of [os.File] objects and
    the environment's schedule *)

(** What an open descriptor refers to. *)
Inductive chan : Type :=
| PipeEnd (p : nat) (side : bool)           (* one end of pipe number p *)
| SrvFile (name : string) (rclose : bool).  (* an entry of /srv opened for
                                               writing; rclose = ORCLOSE *)

(** What the peer end of a pipe delivers.  Plan 9 pipes keep write
    boundaries: one [Msg d] is one write of the peer, and a read returns
    bytes of at most one of them. *)
Inductive revent : Type :=
| Msg (d : list byte)
| RFail (e : string).

(** How many bytes the kernel takes on a write, or the error it raises. *)
Inductive wevent : Type :=
| Took (n : nat)
| WFail (e : string).

(** An [os.File]: the descriptor it wraps, its name, and whether [Close]
    has been called on it. *)
Record osfile : Type := OsFile {
  fd : nat;
  fname : string;
  closed : bool
}.

(** [*os.File]: an address in the heap of [os.File] objects.  Two structs
    holding the same address share the file. *)
Definition file : Type := nat.

Record world : Type := World {
  fds : gmap nat chan;                 (* descriptor table of the process *)
  nfd : nat;                           (* how many descriptors it may hold *)
  srv : gmap string (option chan);     (* /srv: name -> posted channel *)
  npipes : nat;                        (* pipes created so far *)
  files : gmap nat osfile;             (* the heap of os.File objects *)
  incoming : gmap nat (list revent);   (* per descriptor: what reads deliver *)
  outgoing : gmap nat (list wevent)    (* per descriptor: what writes take *)
}.

Definition set_fds (w : world) (x : gmap nat chan) : world :=
  World x (nfd w) (srv w) (npipes w) (files w) (incoming w) (outgoing w).
Definition set_srv (w : world) (x : gmap string (option chan)) : world :=
  World (fds w) (nfd w) x (npipes w) (files w) (incoming w) (outgoing w).
Definition set_npipes (w : world) (x : nat) : world :=
  World (fds w) (nfd w) (srv w) x (files w) (incoming w) (outgoing w).
Definition set_files (w : world) (x : gmap nat osfile) : world :=
  World (fds w) (nfd w) (srv w) (npipes w) x (incoming w) (outgoing w).
Definition set_incoming (w : world) (x : gmap nat (list revent)) : world :=
  World (fds w) (nfd w) (srv w) (npipes w) (files w) x (outgoing w).
Definition set_outgoing (w : world) (x : gmap nat (list wevent)) : world :=
  World (fds w) (nfd w) (srv w) (npipes w) (files w) (incoming w) x.

(** ** Bytes *)

(** [[]byte(s)] and [string(b)]. *)
Definition bytes (s : string) : list byte := list_byte_of_string s.
Definition gostring (b : list byte) : string := string_of_list_byte b.

(** [make([]byte, n)]: n zero bytes. *)
Definition make (n : nat) : list byte := repeat x00 n.

(** [fmt.Sprintf("%d", n)] for a non-negative n, and the kernel's reading
    of a string of decimal digits (as strtoul does, no digits is 0). *)
Definition itoa (n : nat) : list byte :=
  bytes (NilEmpty.string_of_uint (Nat.to_uint n)).
Definition atoi (b : list byte) : option nat :=
  Nat.of_uint <$> NilEmpty.uint_of_string (gostring b).

(** ** The kernel *)

Module Kernel.

(** Constants of [golang.org/x/sys/plan9]. *)
Definition O_RDONLY : Z := 0%Z.
Definition O_WRONLY : Z := 1%Z.
Definition O_RDWR : Z := 2%Z.
Definition O_CLOEXEC : Z := 32%Z.

Definition Enofd : error := ErrorString "no free file descriptors".
Definition Ebadfd : error := ErrorString "fd out of range or not open".
Definition Eexist : error := ErrorString "file already exists".
Definition Enonexist : error := ErrorString "file does not exist".
Definition Eperm : error := ErrorString "permission denied".
Definition Ebadusefd : error := ErrorString "inappropriate use of fd".
Definition Eshutdown : error := ErrorString "device shut down".

(** A descriptor the process does not hold yet, if it may hold one
    more. *)
Definition newfd (w : world) : option nat :=
  if decide (size (fds w) < nfd w) then Some (fresh (dom (fds w))) else None.

(** [pipe(2)]: a new pipe, one descriptor on each end. *)
Definition pipe (w : world) : result (nat * nat) * world :=
  match newfd w with
  | None => (Err Enofd, w)
  | Some fd0 =>
      let w0 := set_fds w (<[fd0 := PipeEnd (npipes w) false]> (fds w)) in
      match newfd w0 with
      | None => (Err Enofd, w)
      | Some fd1 =>
          let w1 := set_fds w0 (<[fd1 := PipeEnd (npipes w) true]> (fds w0)) in
          (Ok (fd0, fd1), set_npipes w1 (S (npipes w)))
      end
  end.

(** [create(2)] of a name of /srv (devsrv's srvcreate): the name must
    be free and the mode must be OWRITE; bit 6 of the mode (ORCLOSE)
    asks for the name to be removed when this descriptor is closed. *)
Definition create (w : world) (path : string) (mode : Z) (perm : Z)
  : result nat * world :=
  if negb (Z.land mode 3 =? 1)%Z then (Err Eperm, w)
  else match srv w !! path with
       | Some _ => (Err Eexist, w)
       | None =>
           match newfd w with
           | None => (Err Enofd, w)
           | Some n =>
               let c := SrvFile path (Z.testbit mode 6) in
               (Ok n, set_srv (set_fds w (<[n := c]> (fds w)))
                              (<[path := None]> (srv w)))
           end
       end.

(** [open(2)] of a name of /srv (srvopen): the descriptor obtained is
    one more reference to the channel posted there. *)
Definition open (w : world) (path : string) (mode : Z) : result nat * world :=
  match srv w !! path with
  | None => (Err Enonexist, w)
  | Some None => (Err Eshutdown, w)
  | Some (Some c) =>
      match newfd w with
      | None => (Err Enofd, w)
      | Some n => (Ok n, set_fds w (<[n := c]> (fds w)))
      end
  end.

(** [close(2)].  Closing a descriptor created with ORCLOSE removes the
    name it created (srvclose / srvremove). *)
Definition close (w : world) (n : nat) : option error * world :=
  match fds w !! n with
  | None => (Some Ebadfd, w)
  | Some c =>
      let w1 := set_fds w (delete n (fds w)) in
      match c with
      | SrvFile name true => (None, set_srv w1 (delete name (srv w1)))
      | _ => (None, w1)
      end
  end.

(** [pwrite(2)].  On an entry of /srv (srvwrite) the bytes are the
    decimal number of a descriptor of the caller, whose channel is
    posted under the name; an entry takes one channel only.  On a pipe
    the environment decides how much is taken; with no schedule the
    whole buffer is. *)
Definition write (w : world) (n : nat) (b : list byte)
  : (nat * option error) * world :=
  match fds w !! n with
  | None => ((0, Some Ebadfd), w)
  | Some (SrvFile name _) =>
      match srv w !! name with
      | Some None =>
          match atoi b ≫= (λ k, fds w !! k) with
          | Some c => ((length b, None), set_srv w (<[name := Some c]> (srv w)))
          | None => ((0, Some Ebadfd), w)
          end
      | _ => ((0, Some Ebadusefd), w)
      end
  | Some (PipeEnd _ _) =>
      match default [] (outgoing w !! n) with
      | [] => ((length b, None), w)
      | Took k :: rest =>
          ((k `min` length b, None), set_outgoing w (<[n := rest]> (outgoing w)))
      | WFail e :: rest =>
          ((0, Some (ErrorString e)), set_outgoing w (<[n := rest]> (outgoing w)))
      end
  end.

(** [pread(2)] into a buffer of [k] bytes: [None] when the call would
    wait.  A read takes bytes of the first pending message only and
    leaves what does not fit at the head of the queue. *)
Definition read (w : world) (n : nat) (k : nat)
  : option (list byte * option error) * world :=
  match fds w !! n with
  | None => (Some ([], Some Ebadfd), w)
  | Some (SrvFile _ _) => (Some ([], Some Ebadusefd), w)
  | Some (PipeEnd _ _) =>
      match default [] (incoming w !! n) with
      | [] => (None, w)
      | Msg d :: rest =>
          let rest' := if decide (k < length d) then Msg (drop k d) :: rest
                       else rest in
          (Some (take k d, None), set_incoming w (<[n := rest']> (incoming w)))
      | RFail e :: rest =>
          (Some ([], Some (ErrorString e)),
           set_incoming w (<[n := rest]> (incoming w)))
      end
  end.

End Kernel.

(** ** Package os: [*os.File] *)

Module Os.

(** What [Read] hands back: the count, the error, and the caller's
    buffer as the call leaves it. *)
Record readres : Type := ReadRes {
  rd_n : nat;
  rd_err : option error;
  rd_buf : list byte
}.

(** [os.NewFile(fd, name)]: a new [os.File] object around [fd]. *)
Definition NewFile (w : world) (n : nat) (name : string) : file * world :=
  let a := fresh (dom (files w)) in
  (a, set_files w (<[a := OsFile n name false]> (files w))).

(** [os.OpenFile(name, flag, perm)]. *)
Definition OpenFile (w : world) (name : string) (flag : Z) (perm : Z)
  : result file * world :=
  match Kernel.open w name flag with
  | (Err e, w1) => (Err e, w1)
  | (Ok n, w1) => let '(f, w2) := NewFile w1 n name in (Ok f, w2)
  end.

(** [File.Read]: a closed file fails with [ErrClosed] before the
    kernel is asked; a read of no bytes into a non-empty buffer is
    [io.EOF]; the bytes read overwrite the front of [b]. *)
Definition Read (w : world) (f : file) (b : list byte)
  : option readres * world :=
  match files w !! f with
  | None => (Some (ReadRes 0 (Some ErrInvalid) b), w)
  | Some o =>
      if closed o then (Some (ReadRes 0 (Some ErrClosed) b), w)
      else match Kernel.read w (fd o) (length b) with
           | (None, w1) => (None, w1)
           | (Some (d, Some e), w1) => (Some (ReadRes 0 (Some e) b), w1)
           | (Some (d, None), w1) =>
               if decide (length d = 0 ∧ 0 < length b)
               then (Some (ReadRes 0 (Some EOF) b), w1)
               else (Some (ReadRes (length d) None (d ++ drop (length d) b)), w1)
           end
  end.

(** [File.Write]: a closed file fails with [ErrClosed]; a count
    other than [len(b)] is reported as [io.ErrShortWrite] unless the
    kernel gave an error of its own. *)
Definition Write (w : world) (f : file) (b : list byte)
  : (nat * option error) * world :=
  match files w !! f with
  | None => ((0, Some ErrInvalid), w)
  | Some o =>
      if closed o then ((0, Some ErrClosed), w)
      else let '((n, e), w1) := Kernel.write w (fd o) b in
           let err := if decide (n ≠ length b) then Some ErrShortWrite else None in
           let err := match e with Some e' => Some e' | None => err end in
           ((n, err), w1)
  end.

(** [File.Close]: the first call marks the file closed and closes
    the descriptor; any later call fails with [ErrClosed]. *)
Definition Close (w : world) (f : file) : option error * world :=
  match files w !! f with
  | None => (Some ErrInvalid, w)
  | Some o =>
      if closed o then (Some ErrClosed, w)
      else Kernel.close
             (set_files w (<[f := OsFile (fd o) (fname o) true]> (files w)))
             (fd o)
  end.

(** [fmt.Fprintf(f, "%d", n)]: one [Write] of the decimal digits. *)
Definition Fprintf_d (w : world) (f : file) (n : nat)
  : (nat * option error) * world :=
  Write w f (itoa n).

End Os.

(** ** safesocket_plan9.go

    The functions below follow the Go text statement by statement.  The
    [log.Printf] lines are left out: they write to the process log and
    return nothing the code looks at.  The fields [name] and [file] of
    the two structs carry the prefix of their struct. *)

Module Safesocket.

Record ConnectionStrategy : Type := { path : string }.

Record plan9SrvListener : Type := SrvListener {
  sl_name : string;
  sl_file : file
}.

Record plan9FileConn : Type := FileConn {
  fc_name : string;
  fc_file : file
}.

(** [time.Time], as nanoseconds. *)
Definition Time : Type := Z.

(** Not in the Go text: what is still queued for the listener's
    descriptor, the measure under which the loop of [Accept] ends. *)
Definition weight (e : revent) : nat :=
  match e with Msg d => S (length d) | RFail _ => 1 end.

Definition pending (w : world) (f : file) : nat :=
  match files w !! f with
  | Some o => sum_list (weight <$> default [] (incoming w !! fd o))
  | None => 0
  end.

(** Not in the Go text: a value together with the equation that it is
    that value, so that a [with] clause remembers what was matched on. *)
Definition inspect {A : Type} (a : A) : {b : A | a = b} := exist _ a eq_refl.

(** The handshake token. *)
Definition Hello : string := "Hello".

(** [func (sl *plan9SrvListener) Accept() (net.Conn, error)].
    Each turn of the loop reads into a fresh buffer of [len("Hello")]
    zero bytes. *)
Equations? Accept (w : world) (sl : plan9SrvListener)
  : outcome plan9FileConn * world by wf (pending w (sl_file sl)) lt :=
  Accept w sl with inspect (Os.Read w (sl_file sl) (make (String.length Hello))) := {
    | exist _ (None, w1) _ => (Block, w1)
    | exist _ (Some r, w1) Hread with inspect (Os.rd_err r) := {
        | exist _ (Some err) _ => (Fail err, w1)
        | exist _ None Herr with inspect (String.eqb (gostring (Os.rd_buf r)) Hello) := {
            | exist _ true _ =>
                (Ret (FileConn (sl_name sl) (sl_file sl)), w1)
            | exist _ false _ => Accept w1 sl } } }.
Proof.
  clear Accept. revert Hread. unfold Os.Read, pending.
  destruct (files w !! sl_file sl) as [o|] eqn:Hf.
  2: { intros [= <- <-]. discriminate Herr. }
  destruct (closed o).
  { intros [= <- <-]. discriminate Herr. }
  unfold Kernel.read.
  destruct (fds w !! fd o) as [[p s|n rc]|].
  2,3: intros [= <- <-]; discriminate Herr.
  destruct (default [] (incoming w !! fd o)) as [|[d|e'] rest].
  1,3: intros [= <- <-]; discriminate Herr.
  simpl. case_decide.
  { intros [= <- <-]. discriminate Herr. }
  intros [= <- <-]. simpl. rewrite Hf, lookup_insert_eq. simpl.
  change (list_fmap revent nat weight rest) with (weight <$> rest).
  case_decide; [rewrite fmap_cons; simpl; rewrite length_drop|]; lia.
Qed.

(** [func (sl *plan9SrvListener) Close() error]. *)
Definition Close (w : world) (sl : plan9SrvListener) : option error * world :=
  Os.Close w (sl_file sl).

(** [func (sl *plan9SrvListener) Addr() net.Addr], a [plan9SrvAddr],
    with its [Network] and [String] methods. *)
Definition Addr (sl : plan9SrvListener) : string := sl_name sl.
Definition Network (a : string) : string := "/srv".
Definition String (a : string) : string := a.

(** The methods of [plan9FileConn]. *)
Module Conn.

Definition Read (w : world) (fc : plan9FileConn) (b : list byte)
  : option Os.readres * world :=
  Os.Read w (fc_file fc) b.

Definition Write (w : world) (fc : plan9FileConn) (b : list byte)
  : (nat * option error) * world :=
  Os.Write w (fc_file fc) b.

Definition Close (w : world) (fc : plan9FileConn) : option error * world :=
  Os.Close w (fc_file fc).

Definition LocalAddr (fc : plan9FileConn) : string := fc_name fc.
Definition RemoteAddr (fc : plan9FileConn) : string := fc_name fc.

Definition SetDeadline (w : world) (fc : plan9FileConn) (t : Time)
  : option error * world :=
  (Some EPLAN9, w).

Definition SetReadDeadline (w : world) (fc : plan9FileConn) (t : Time)
  : option error * world :=
  (Some EPLAN9, w).

Definition SetWriteDeadline (w : world) (fc : plan9FileConn) (t : Time)
  : option error * world :=
  (Some EPLAN9, w).

End Conn.

(** [func connect(s *ConnectionStrategy) (net.Conn, error)]. *)
Definition connect (w : world) (s : ConnectionStrategy)
  : result plan9FileConn * world :=
  match Os.OpenFile w (path s) Kernel.O_RDWR 438%Z (* 0666 *) with
  | (Err err, w1) => (Err err, w1)
  | (Ok f, w1) =>
      match Os.Write w1 f (bytes Hello) with
      | ((n, Some err), w2) => (Err err, w2)
      | ((n, None), w2) =>
          if decide (n ≠ String.length Hello)
          then (Err (ErrorsNew "Bad handshake"), w2)
          else (Ok (FileConn (path s) f), w2)
      end
  end.

(** [func createSrv(path string)], returning a [*os.File] and an error.
    The two deferred calls run, last registered first, on every return
    that follows their [defer] statement; what they return is dropped. *)
Definition createSrv (w : world) (path : string) : result file * world :=
  let O_RCLOSE : Z := 64%Z in
  match Kernel.pipe w with
  | (Err err, w1) => (Err err, w1)
  | (Ok (pip0, pip1), w1) =>
      let close_pip1 (v : world) : world := snd (Kernel.close v pip1) in
      match Kernel.create w1 path
              (Z.lor (Z.lor Kernel.O_WRONLY Kernel.O_CLOEXEC) O_RCLOSE)
              384%Z (* 0600 *) with
      | (Err err, w2) => (Err err, close_pip1 w2)
      | (Ok srvfd, w2) =>
          let '(srvf, w3) := Os.NewFile w2 srvfd path in
          let close_srv (v : world) : world := snd (Os.Close v srvf) in
          match Os.Fprintf_d w3 srvf pip1 with
          | ((_, Some err), w4) => (Err err, close_pip1 (close_srv w4))
          | ((_, None), w4) =>
              let '(f, w5) := Os.NewFile w4 pip0 path in
              (Ok f, close_pip1 (close_srv w5))
          end
      end
  end.

(** [func listen(path string) (net.Listener, error)]. *)
Definition listen (w : world) (path : string)
  : result plan9SrvListener * world :=
  match createSrv w path with
  | (Err err, w1) => (Err err, w1)
  | (Ok f, w1) => (Ok (SrvListener path f), w1)
  end.

End Safesocket.

(** ** Vocabulary of the statements *)

Module Trace.
Import Safesocket.

(** The world in which turn number [n] of the loop of [Accept] starts,
    counting from 0: each turn before it made one [Read] into a fresh
    token-sized buffer. *)
Fixpoint after_reads (n : nat) (w : world) (f : file) : world :=
  match n with
  | 0 => w
  | S k => after_reads k (snd (Os.Read w f (make (String.length Hello)))) f
  end.

(** The next [Read] of the loop is one it passes over: it returns, with
    no error, a buffer that is not the token. *)
Definition noise (w : world) (f : file) : bool :=
  match Os.Read w f (make (String.length Hello)) with
  | (Some r, _) =>
      match Os.rd_err r with
      | None => negb (String.eqb (gostring (Os.rd_buf r)) Hello)
      | Some _ => false
      end
  | (None, _) => false
  end.

(** What [Accept] returns on a [Read] that it does not pass over. *)
Definition verdict (sl : plan9SrvListener) (x : option Os.readres * world)
  : outcome plan9FileConn * world :=
  match x with
  | (None, w1) => (Block, w1)
  | (Some r, w1) =>
      match Os.rd_err r with
      | Some e => (Fail e, w1)
      | None => (Ret (FileConn (sl_name sl) (sl_file sl)), w1)
      end
  end.

(** [Close] has been called on the file at address [f]. *)
Definition is_closed (w : world) (f : file) : bool :=
  match files w !! f with
  | Some o => closed o
  | None => false
  end.

(** [w'] keeps closed every file that is closed in [w]. *)
Definition keeps_closed (w w' : world) : Prop :=
  ∀ f, is_closed w f = true → is_closed w' f = true.

(** The calls a program can make into this backend. *)
Inductive call : Type :=
| CallRead (fc : plan9FileConn) (b : list byte)
| CallWrite (fc : plan9FileConn) (b : list byte)
| CallClose (fc : plan9FileConn)
| CallSetDeadline (fc : plan9FileConn) (t : Time)
| CallSetReadDeadline (fc : plan9FileConn) (t : Time)
| CallSetWriteDeadline (fc : plan9FileConn) (t : Time)
| CallAccept (sl : plan9SrvListener)
| CallListenerClose (sl : plan9SrvListener)
| CallConnect (s : ConnectionStrategy)
| CallListen (path : string).

(** The world a call leaves behind. *)
Definition run (w : world) (c : call) : world :=
  match c with
  | CallRead fc b => snd (Conn.Read w fc b)
  | CallWrite fc b => snd (Conn.Write w fc b)
  | CallClose fc => snd (Conn.Close w fc)
  | CallSetDeadline fc t => snd (Conn.SetDeadline w fc t)
  | CallSetReadDeadline fc t => snd (Conn.SetReadDeadline w fc t)
  | CallSetWriteDeadline fc t => snd (Conn.SetWriteDeadline w fc t)
  | CallAccept sl => snd (Accept w sl)
  | CallListenerClose sl => snd (Close w sl)
  | CallConnect s => snd (connect w s)
  | CallListen p => snd (listen w p)
  end.

Definition run_all (w : world) (cs : list call) : world := fold_left run cs w.

(** The world with [q] queued for descriptor [n]. *)
Definition queued (w : world) (n : nat) (q : list revent) : world :=
  set_incoming w (<[n := q]> (incoming w)).

(** "A second [Close] of a Listener behaves as the first": same result,
    no further change of state. *)
Definition Close_twice_same (w : world) (sl : plan9SrvListener) : Prop :=
  let '(r1, w1) := Close w sl in
  let '(r2, w2) := Close w1 sl in
  r2 = r1 ∧ w2 = w1.

(** "A short write of the token makes [connect] fail with the
    bad-handshake error." *)
Definition short_write_is_bad_handshake (w : world) (s : ConnectionStrategy)
  : Prop :=
  ∀ f w1 n err w2,
    Os.OpenFile w (path s) Kernel.O_RDWR 438%Z = (Ok f, w1) →
    Os.Write w1 f (bytes Hello) = ((n, err), w2) →
    n < String.length Hello →
    connect w s = (Err (ErrorsNew "Bad handshake"), w2).

End Trace.

(** ** Concrete worlds *)

Module Scenario.
Import Safesocket Trace.

Definition sock : string := "/srv/tailscale.sock".

(** A process with nothing open, and an empty /srv. *)
Definition boot : world := World ∅ 16 ∅ 0 ∅ ∅ ∅.

(** The daemon after [listen(sock)]. *)
Definition listening : world := snd (listen boot sock).
Definition the_listener : plan9SrvListener := SrvListener sock 1.

(** The daemon holding descriptor 3 on its end of the pipe, wrapped in
    the file at address 0, with [q] on its way. *)
Definition serving (q : list revent) : world :=
  World {[3 := PipeEnd 0 false]} 16 ∅ 1 {[0 := OsFile 3 sock false]}
        {[3 := q]} ∅.
Definition server : plan9SrvListener := SrvListener sock 0.

(** A client that finds the daemon's pipe posted under [sock]; its first
    descriptor will be 0, and [ws] is what the kernel takes of its
    writes. *)
Definition client (ws : list wevent) : world :=
  World ∅ 16 {[sock := Some (PipeEnd 0 true)]} 1 ∅ ∅ {[0 := ws]}.
Definition strategy : ConnectionStrategy := {| path := sock |}.

End Scenario.

(** ** The loop of [Accept] *)

Module AcceptFacts.
Import Safesocket Trace.

Local Abbreviation token_buf := (make (String.length Hello)).

(** One turn of the loop. *)
Lemma Accept_step w sl :
  Accept w sl =
  match Os.Read w (sl_file sl) token_buf with
  | (None, w1) => (Block, w1)
  | (Some r, w1) =>
      match Os.rd_err r with
      | Some e => (Fail e, w1)
      | None => if String.eqb (gostring (Os.rd_buf r)) Hello
                then (Ret (FileConn (sl_name sl) (sl_file sl)), w1)
                else Accept w1 sl
      end
  end.
Proof.
  funelim (Accept w sl);
    match goal with H : Os.Read _ _ _ = _ |- _ => rewrite H end;
    try match goal with H : Os.rd_err _ = _ |- _ => rewrite H end;
    try match goal with H : String.eqb _ _ = _ |- _ => rewrite H end;
    reflexivity.
Qed.

(** A read that is passed over costs one turn and nothing else. *)
Lemma Accept_noise w sl :
  noise w (sl_file sl) = true →
  Accept w sl = Accept (after_reads 1 w (sl_file sl)) sl.
Proof.
  intros Hn. rewrite Accept_step. unfold noise in Hn. cbn [after_reads].
  destruct (Os.Read w (sl_file sl) token_buf) as [[r|] w1]; [|discriminate].
  destruct (Os.rd_err r); [discriminate|].
  destruct (String.eqb _ _); [discriminate|reflexivity].
Qed.

(** Any other read ends the call. *)
Lemma Accept_settled w sl :
  noise w (sl_file sl) = false →
  Accept w sl = verdict sl (Os.Read w (sl_file sl) token_buf).
Proof.
  intros Hn. rewrite Accept_step. unfold noise in Hn. unfold verdict.
  destruct (Os.Read w (sl_file sl) token_buf) as [[r|] w1]; [|reflexivity].
  destruct (Os.rd_err r); [reflexivity|].
  destruct (String.eqb _ _); [reflexivity|discriminate].
Qed.

Lemma Accept_after_noise n : ∀ w sl,
  (∀ i, i < n → noise (after_reads i w (sl_file sl)) (sl_file sl) = true) →
  Accept w sl = Accept (after_reads n w (sl_file sl)) sl.
Proof.
  induction n as [|n IH]; intros w sl Hn; [reflexivity|].
  rewrite Accept_noise by (apply (Hn 0); lia).
  cbn [after_reads]. apply IH. intros i Hi. apply (Hn (S i)). lia.
Qed.

(** The loop passes over some number of reads and settles on the next
    one. *)
Lemma Accept_trace w sl :
  ∃ n, (∀ i, i < n → noise (after_reads i w (sl_file sl)) (sl_file sl) = true)
       ∧ noise (after_reads n w (sl_file sl)) (sl_file sl) = false.
Proof.
  funelim (Accept w sl).
  1-3: exists 0; split; [intros i Hi; lia|]; cbn [after_reads]; unfold noise;
    match goal with H : Os.Read _ _ _ = _ |- _ => rewrite H end;
    try match goal with H : Os.rd_err _ = _ |- _ => rewrite H end;
    try match goal with H : String.eqb _ _ = _ |- _ => rewrite H end;
    reflexivity.
  match goal with IH : ∃ n, _ |- _ => destruct IH as (n & Hlt & Hn) end.
  exists (S n). cbn [after_reads]. rewrite Hread. split; [|exact Hn].
  intros [|i] Hi; cbn [after_reads].
  - unfold noise. rewrite Hread, Herr, e. reflexivity.
  - rewrite Hread. apply Hlt. lia.
Qed.

End AcceptFacts.

(** ** What a read of [os.File] tells *)

Module ReadFacts.
Import Safesocket Trace.

Lemma gostring_inj b s : gostring b = s → b = bytes s.
Proof.
  intros <-. unfold bytes, gostring.
  symmetry. apply list_byte_of_string_of_list_byte.
Qed.

Lemma gostring_bytes s : gostring (bytes s) = s.
Proof. apply string_of_list_byte_of_string. Qed.

(** A buffer of five zero bytes whose front was overwritten by [d]
    reads "Hello" only if [d] is all of "Hello": a zero byte left in
    place is none of its letters. *)
Lemma token_in_full (d : list byte) :
  length d ≤ 5 →
  gostring (d ++ drop (length d) (make 5)) = Hello →
  d = bytes Hello.
Proof.
  intros Hlen H. apply gostring_inj in H.
  destruct d as [|a [|b [|c [|e [|g [|h t]]]]]]; simpl in Hlen;
    try lia; cbv in H; try congruence.
  rewrite H. reflexivity.
Qed.

(** The same, read the other way: fewer than five bytes never make the
    token. *)
Lemma partial_is_not_token (d : list byte) :
  length d < 5 →
  String.eqb (gostring (d ++ drop (length d) (make 5))) Hello = false.
Proof.
  intros Hlen. apply String.eqb_neq. intros H.
  apply token_in_full in H; [|lia]. subst d. cbv in Hlen. lia.
Qed.

(** A read that returns without error took the front of a message
    queued on an open pipe descriptor. *)
Lemma Read_ok_inv w f b r w1 :
  Os.Read w f b = (Some r, w1) →
  Os.rd_err r = None →
  ∃ o p s d rest,
    files w !! f = Some o ∧ closed o = false
    ∧ fds w !! fd o = Some (PipeEnd p s)
    ∧ incoming w !! fd o = Some (Msg d :: rest)
    ∧ r = Os.ReadRes (length (take (length b) d)) None
                     (take (length b) d ++ drop (length (take (length b) d)) b)
    ∧ w1 = queued w (fd o)
             (if decide (length b < length d)
              then Msg (drop (length b) d) :: rest else rest).
Proof.
  unfold Os.Read. intros Hr He.
  destruct (files w !! f) as [o|] eqn:Hf; [|by inversion Hr; subst].
  destruct (closed o) eqn:Hc; [by inversion Hr; subst|].
  unfold Kernel.read in Hr.
  destruct (fds w !! fd o) as [[p s|n rc]|] eqn:Hfd;
    [|by inversion Hr; subst..].
  destruct (incoming w !! fd o) as [q|] eqn:Hq; simpl in Hr;
    [|by inversion Hr].
  destruct q as [|[d|e] rest]; [by inversion Hr| |by inversion Hr; subst].
  case_decide; [by inversion Hr; subst|].
  inversion Hr; subst. exists o, p, s, d, rest. done.
Qed.

(** Reading a queued message. *)
Lemma Read_msg w f o p s d rest b :
  files w !! f = Some o → closed o = false →
  fds w !! fd o = Some (PipeEnd p s) →
  incoming w !! fd o = Some (Msg d :: rest) →
  d ≠ [] → 0 < length b →
  Os.Read w f b =
  (Some (Os.ReadRes (length (take (length b) d)) None
                    (take (length b) d ++ drop (length (take (length b) d)) b)),
   queued w (fd o)
     (if decide (length b < length d)
      then Msg (drop (length b) d) :: rest else rest)).
Proof.
  intros Hf Hc Hfd Hq Hd Hb. unfold Os.Read, Kernel.read.
  rewrite Hf, Hc, Hfd, Hq. simpl.
  rewrite decide_False; [reflexivity|].
  intros [H0 _]. destruct d; [done|]. destruct b; simpl in *; lia.
Qed.

End ReadFacts.

(** ** When [Accept] returns *)

Module AcceptResults.
Import Safesocket Trace AcceptFacts ReadFacts.

Local Abbreviation token_buf := (make (String.length Hello)).

(** An error-free read into the token buffer that reads "Hello"
    delivered five bytes, and they are the token. *)
Lemma Read_token w f r w1 :
  Os.Read w f token_buf = (Some r, w1) →
  Os.rd_err r = None →
  String.eqb (gostring (Os.rd_buf r)) Hello = true →
  r = Os.ReadRes 5 None (bytes Hello).
Proof.
  intros Hr He Heq.
  destruct (Read_ok_inv _ _ _ _ _ Hr He)
    as (o & p & s & d & rest & _ & _ & _ & _ & -> & _).
  change (length token_buf) with 5 in *. simpl in Heq.
  apply String.eqb_eq, token_in_full in Heq;
    [|rewrite length_take; lia].
  rewrite Heq. reflexivity.
Qed.

(** When the next read is not passed over and [Accept] hands out a Conn,
    that read brought the whole token, and the Conn is the listener's
    name and file. *)
Lemma Accept_settles_on_token w sl c w' :
  noise w (sl_file sl) = false →
  Accept w sl = (Ret c, w') →
  Os.Read w (sl_file sl) token_buf = (Some (Os.ReadRes 5 None (bytes Hello)), w')
  ∧ c = FileConn (sl_name sl) (sl_file sl).
Proof.
  intros Hn H. rewrite Accept_settled in H by exact Hn.
  unfold noise in Hn. unfold verdict in H.
  destruct (Os.Read w (sl_file sl) token_buf) as [[r|] w1] eqn:Hr;
    [|discriminate].
  destruct (Os.rd_err r) eqn:He; [discriminate|].
  injection H as <- <-. split; [|reflexivity].
  apply negb_false_iff in Hn.
  rewrite (Read_token _ _ _ _ Hr He Hn). reflexivity.
Qed.

(** A message of one to four bytes at the head of the queue is read,
    compared, and dropped. *)
Lemma Accept_skips_partial w sl o p s d rest :
  files w !! sl_file sl = Some o → closed o = false →
  fds w !! fd o = Some (PipeEnd p s) →
  incoming w !! fd o = Some (Msg d :: rest) →
  0 < length d < 5 →
  Accept w sl = Accept (queued w (fd o) rest) sl.
Proof.
  intros Hf Hc Hfd Hq Hd.
  assert (Hread := Read_msg w (sl_file sl) o p s d rest token_buf Hf Hc Hfd Hq).
  change (length token_buf) with 5 in Hread.
  rewrite take_ge, decide_False in Hread by lia.
  rewrite Accept_step, Hread; [|by destruct d; simpl in *; [lia|]|lia].
  cbn [Os.rd_err Os.rd_buf].
  rewrite partial_is_not_token by lia. reflexivity.
Qed.

End AcceptResults.

(** ** A token that arrives in pieces *)

Module Pieces.
Import Safesocket Trace AcceptFacts ReadFacts AcceptResults.

Lemma queued_same w n q : incoming w !! n = Some q → queued w n q = w.
Proof.
  intros H. unfold queued, set_incoming. rewrite insert_id by exact H.
  by destruct w.
Qed.

Lemma queued_queued w n q q' : queued (queued w n q) n q' = queued w n q'.
Proof.
  unfold queued, set_incoming. simpl. by rewrite insert_insert_eq.
Qed.

(** Every piece shorter than the token is dropped in turn. *)
Lemma Accept_skips_partials sl o p s parts : ∀ w rest,
  files w !! sl_file sl = Some o → closed o = false →
  fds w !! fd o = Some (PipeEnd p s) →
  incoming w !! fd o = Some ((Msg <$> parts) ++ rest) →
  Forall (λ d, 0 < length d < 5) parts →
  Accept w sl = Accept (queued w (fd o) rest) sl.
Proof.
  induction parts as [|d parts IH]; intros w rest Hf Hc Hfd Hq Hall.
  - simpl in Hq. by rewrite queued_same.
  - apply Forall_cons in Hall as [Hd Hall]. rewrite fmap_cons in Hq.
    rewrite (Accept_skips_partial w sl o p s d _ Hf Hc Hfd Hq Hd).
    rewrite (IH (queued w (fd o) ((Msg <$> parts) ++ rest)) rest);
      try done.
    + by rewrite queued_queued.
    + simpl. apply lookup_insert_eq.
Qed.

Lemma concat_at_least (parts : list (list byte)) :
  Forall (λ d, d ≠ []) parts → length parts ≤ length (concat parts).
Proof.
  induction 1 as [|d parts Hd _ IH]; simpl; [lia|].
  rewrite length_app. destruct d; [done|]. simpl. lia.
Qed.

(** Of two or more non-empty pieces, each is shorter than the whole. *)
Lemma piece_shorter (parts : list (list byte)) :
  Forall (λ d, d ≠ []) parts → 2 ≤ length parts →
  Forall (λ d, 0 < length d < length (concat parts)) parts.
Proof.
  intros Hne Hlen.
  assert (Hin : ∀ d, d ∈ parts →
            length d + (length parts - 1) ≤ length (concat parts)).
  { clear Hlen. induction Hne as [|a parts Ha Hne IH]; intros d Hd.
    - by apply elem_of_nil in Hd.
    - simpl. rewrite length_app.
      apply elem_of_cons in Hd as [->|Hd].
      + pose proof (concat_at_least parts Hne). lia.
      + specialize (IH d Hd). destruct a; [done|].
        destruct parts; [by apply elem_of_nil in Hd|]. simpl in *. lia. }
  apply Forall_forall. intros d Hd. specialize (Hin d Hd).
  rewrite Forall_forall in Hne. specialize (Hne d Hd).
  destruct d; [done|]. simpl in *. lia.
Qed.

End Pieces.

(** ** Files: what the layers below do to the heap of [os.File] *)

Module FileFacts.
Import Safesocket Trace.

Lemma Kernel_close_files w n : files (snd (Kernel.close w n)) = files w.
Proof.
  unfold Kernel.close. destruct (fds w !! n) as [[p s|name [|]]|]; reflexivity.
Qed.

Lemma Kernel_write_files w n b : files (snd (Kernel.write w n b)) = files w.
Proof.
  unfold Kernel.write.
  destruct (fds w !! n) as [[p s|name rc]|]; [| |reflexivity].
  - destruct (default [] (outgoing w !! n)) as [|[k|e] rest]; reflexivity.
  - destruct (srv w !! name) as [[c|]|]; [reflexivity| |reflexivity].
    destruct (atoi b ≫= _); reflexivity.
Qed.

Lemma Kernel_read_files w n k : files (snd (Kernel.read w n k)) = files w.
Proof.
  unfold Kernel.read.
  destruct (fds w !! n) as [[p s|name rc]|]; [|reflexivity..].
  destruct (default [] (incoming w !! n)) as [|[d|e] rest]; reflexivity.
Qed.

Lemma Kernel_open_files w path mode :
  files (snd (Kernel.open w path mode)) = files w.
Proof.
  unfold Kernel.open. destruct (srv w !! path) as [[c|]|]; [|reflexivity..].
  destruct (Kernel.newfd w); reflexivity.
Qed.

Lemma Kernel_create_files w path mode perm :
  files (snd (Kernel.create w path mode perm)) = files w.
Proof.
  unfold Kernel.create. destruct (negb _); [reflexivity|].
  destruct (srv w !! path); [reflexivity|].
  destruct (Kernel.newfd w); reflexivity.
Qed.

Lemma Kernel_pipe_files w : files (snd (Kernel.pipe w)) = files w.
Proof.
  unfold Kernel.pipe. destruct (Kernel.newfd w); [|reflexivity].
  destruct (Kernel.newfd _); reflexivity.
Qed.

Lemma Os_Read_files w f b : files (snd (Os.Read w f b)) = files w.
Proof.
  unfold Os.Read. destruct (files w !! f) as [o|]; [|reflexivity].
  destruct (closed o); [reflexivity|].
  pose proof (Kernel_read_files w (fd o) (length b)) as H.
  destruct (Kernel.read w (fd o) (length b)) as [[[d [e|]]|] w1]; simpl in *;
    try case_decide; exact H.
Qed.

Lemma Os_Write_files w f b : files (snd (Os.Write w f b)) = files w.
Proof.
  unfold Os.Write. destruct (files w !! f) as [o|]; [|reflexivity].
  destruct (closed o); [reflexivity|].
  pose proof (Kernel_write_files w (fd o) b) as H.
  destruct (Kernel.write w (fd o) b) as [[n e] w1]. exact H.
Qed.

(** [Accept] only reads. *)
Lemma Accept_files w sl : files (snd (Accept w sl)) = files w.
Proof.
  funelim (Accept w sl); simpl;
    match goal with
    | H : Os.Read ?w ?f ?b = _ |- _ =>
        pose proof (Os_Read_files w f b) as Hfiles; rewrite H in Hfiles
    end; simpl in Hfiles; congruence.
Qed.

Lemma keeps_closed_refl w : keeps_closed w w.
Proof. by intros f. Qed.

Lemma keeps_closed_trans w1 w2 w3 :
  keeps_closed w1 w2 → keeps_closed w2 w3 → keeps_closed w1 w3.
Proof. intros H12 H23 f Hf. by apply H23, H12. Qed.

Lemma keeps_closed_same_files w w' : files w' = files w → keeps_closed w w'.
Proof. intros H f. unfold is_closed. by rewrite H. Qed.

Lemma NewFile_keeps_closed w n name : keeps_closed w (snd (Os.NewFile w n name)).
Proof.
  intros f. unfold is_closed, Os.NewFile. simpl.
  destruct (files w !! f) as [o|] eqn:Hf; [|done].
  intros Hc. rewrite lookup_insert_ne; [by rewrite Hf|].
  intros <-. apply elem_of_dom_2 in Hf. by apply is_fresh in Hf.
Qed.

Lemma Os_Close_keeps_closed w f : keeps_closed w (snd (Os.Close w f)).
Proof.
  intros g. unfold is_closed, Os.Close.
  destruct (files w !! f) as [o|] eqn:Hf; [|done].
  destruct (closed o) eqn:Hc; [done|].
  rewrite Kernel_close_files. simpl.
  destruct (decide (f = g)) as [<-|Hne].
  - by rewrite lookup_insert_eq.
  - by rewrite lookup_insert_ne.
Qed.

(** [Close] closes. *)
Lemma Os_Close_closes w f :
  is_Some (files w !! f) → is_closed (snd (Os.Close w f)) f = true.
Proof.
  intros [o Hf]. unfold is_closed, Os.Close. rewrite Hf.
  destruct (closed o) eqn:Hc; simpl; [by rewrite Hf|].
  rewrite Kernel_close_files. simpl. by rewrite lookup_insert_eq.
Qed.

(** I/O on a closed file. *)
Lemma Os_Read_closed w f b :
  is_closed w f = true →
  Os.Read w f b = (Some (Os.ReadRes 0 (Some ErrClosed) b), w).
Proof.
  unfold is_closed, Os.Read. destruct (files w !! f) as [o|]; [|done].
  by intros ->.
Qed.

Lemma Os_Write_closed w f b :
  is_closed w f = true → Os.Write w f b = ((0, Some ErrClosed), w).
Proof.
  unfold is_closed, Os.Write. destruct (files w !! f) as [o|]; [|done].
  by intros ->.
Qed.

Lemma Os_Close_closed w f :
  is_closed w f = true → Os.Close w f = (Some ErrClosed, w).
Proof.
  unfold is_closed, Os.Close. destruct (files w !! f) as [o|]; [|done].
  by intros ->.
Qed.

(** A write that took fewer bytes than it was given reports an error,
    and the error is not one made by [errors.New]. *)
Lemma Os_Write_short w f b n err w' :
  Os.Write w f b = ((n, err), w') → n ≠ length b →
  ∃ e, err = Some e ∧ ∀ msg, e ≠ ErrorsNew msg.
Proof.
  unfold Os.Write. intros H Hn.
  destruct (files w !! f) as [o|]; [|inversion H; by eexists].
  destruct (closed o); [inversion H; by eexists|].
  assert (Hk : ∀ e, fst (Kernel.write w (fd o) b) = (n, Some e) →
                    ∃ s, e = ErrorString s).
  { unfold Kernel.write. intros e.
    destruct (fds w !! fd o) as [[p s|name rc]|];
      [| |intros [= _ <-]; by eexists].
    - destruct (default [] (outgoing w !! fd o)) as [|[k|e'] rest];
        intros [=]; subst; by eexists.
    - destruct (srv w !! name) as [[c|]|]; [intros [= _ <-]; by eexists|
                                            |intros [= _ <-]; by eexists].
      destruct (atoi b ≫= _); intros [=]; subst; by eexists. }
  destruct (Kernel.write w (fd o) b) as [[k [e|]] w1]; simpl in *.
  - inversion H; subst. destruct (Hk e eq_refl) as [s ->]. by eexists.
  - inversion H; subst. rewrite decide_True by done. by eexists.
Qed.

(** No call into the backend reopens a closed file. *)
Lemma connect_keeps_closed w s : keeps_closed w (snd (connect w s)).
Proof.
  unfold connect, Os.OpenFile.
  pose proof (Kernel_open_files w (path s) Kernel.O_RDWR) as Ho.
  destruct (Kernel.open w (path s) Kernel.O_RDWR) as [[n|e] w1]; simpl in Ho;
    [|by apply keeps_closed_same_files].
  pose proof (NewFile_keeps_closed w1 n (path s)) as Hn.
  destruct (Os.NewFile w1 n (path s)) as [f w2]; simpl in Hn.
  pose proof (Os_Write_files w2 f (bytes Hello)) as Hw.
  destruct (Os.Write w2 f (bytes Hello)) as [[k [e|]] w3]; simpl in Hw;
    [|case_decide]; simpl;
    (eapply keeps_closed_trans; [by apply keeps_closed_same_files|]);
    (eapply keeps_closed_trans; [exact Hn|]);
    by apply keeps_closed_same_files.
Qed.

Lemma createSrv_keeps_closed w path : keeps_closed w (snd (createSrv w path)).
Proof.
  unfold createSrv.
  pose proof (Kernel_pipe_files w) as Hp.
  destruct (Kernel.pipe w) as [[[pip0 pip1]|e] w1]; simpl in Hp;
    [|by apply keeps_closed_same_files].
  apply (keeps_closed_trans _ w1); [by apply keeps_closed_same_files|].
  match goal with |- context [Kernel.create w1 path ?m ?q] =>
    pose proof (Kernel_create_files w1 path m q) as Hc;
    destruct (Kernel.create w1 path m q) as [[srvfd|e] w2] end; simpl in Hc.
  2: { simpl. apply keeps_closed_same_files.
       by rewrite Kernel_close_files. }
  apply (keeps_closed_trans _ w2); [by apply keeps_closed_same_files|].
  pose proof (NewFile_keeps_closed w2 srvfd path) as Hn.
  destruct (Os.NewFile w2 srvfd path) as [srvf w3]; simpl in Hn.
  apply (keeps_closed_trans _ w3); [exact Hn|].
  unfold Os.Fprintf_d.
  pose proof (Os_Write_files w3 srvf (itoa pip1)) as Hw.
  destruct (Os.Write w3 srvf (itoa pip1)) as [[k [e|]] w4]; simpl in Hw.
  - simpl. apply (keeps_closed_trans _ w4);
      [by apply keeps_closed_same_files|].
    apply (keeps_closed_trans _ (snd (Os.Close w4 srvf)));
      [apply Os_Close_keeps_closed|].
    apply keeps_closed_same_files. by rewrite Kernel_close_files.
  - apply (keeps_closed_trans _ w4); [by apply keeps_closed_same_files|].
    pose proof (NewFile_keeps_closed w4 pip0 path) as Hn'.
    destruct (Os.NewFile w4 pip0 path) as [f w5]; simpl in Hn'. simpl.
    apply (keeps_closed_trans _ w5); [exact Hn'|].
    apply (keeps_closed_trans _ (snd (Os.Close w5 srvf)));
      [apply Os_Close_keeps_closed|].
    apply keeps_closed_same_files. by rewrite Kernel_close_files.
Qed.

Lemma run_keeps_closed w c : keeps_closed w (run w c).
Proof.
  destruct c as [fc b|fc b|fc|fc t|fc t|fc t|sl|sl|s|p]; simpl.
  - apply keeps_closed_same_files, Os_Read_files.
  - apply keeps_closed_same_files, Os_Write_files.
  - apply Os_Close_keeps_closed.
  - apply keeps_closed_refl.
  - apply keeps_closed_refl.
  - apply keeps_closed_refl.
  - apply keeps_closed_same_files, Accept_files.
  - apply Os_Close_keeps_closed.
  - apply connect_keeps_closed.
  - unfold listen. pose proof (createSrv_keeps_closed w p) as H.
    by destruct (createSrv w p) as [[f|e] w1].
Qed.

Lemma run_all_keeps_closed cs : ∀ w, keeps_closed w (run_all w cs).
Proof.
  induction cs as [|c cs IH]; intros w; [apply keeps_closed_refl|].
  simpl. eapply keeps_closed_trans; [apply run_keeps_closed|apply IH].
Qed.

End FileFacts.

(** ** What [listen] does to the world *)

Module ListenFacts.
Import Safesocket Trace FileFacts.

Ltac world_simpl :=
  unfold set_fds, set_npipes, set_srv, set_files, set_incoming, set_outgoing;
  cbn [fds nfd srv npipes files incoming outgoing fst snd].

Lemma newfd_Some w :
  size (fds w) < nfd w → Kernel.newfd w = Some (fresh (dom (fds w))).
Proof. intros H. unfold Kernel.newfd. by rewrite decide_True. Qed.

Lemma fresh_free {V} (m : gmap nat V) : m !! fresh (dom m) = None.
Proof. apply not_elem_of_dom, is_fresh. Qed.

Lemma fresh_ne {V} (m : gmap nat V) i x : fresh (dom (<[i:=x]> m)) ≠ i.
Proof.
  intros E. pose proof (fresh_free (<[i:=x]> m)) as H.
  rewrite E in H. by rewrite lookup_insert_eq in H.
Qed.

(** The kernel reads back the descriptor number that [Fprintf] wrote. *)
Lemma atoi_itoa n : atoi (itoa n) = Some n.
Proof.
  unfold atoi, itoa. rewrite ReadFacts.gostring_bytes, NilEmpty.usu. simpl.
  by rewrite DecimalNat.Unsigned.of_to.
Qed.

(** With three descriptors to spare and the name free, [createSrv]
    succeeds.  Of the three descriptors it opens, only the listener's
    end of the pipe is still open when it returns; the name it created
    is gone again, removed when the deferred [srv.Close()] closed the
    descriptor that had created it with ORCLOSE. *)
Lemma createSrv_ok w path :
  size (fds w) + 3 ≤ nfd w → srv w !! path = None →
  let fd0 := fresh (dom (fds w)) in
  let F1 := <[fd0 := PipeEnd (npipes w) false]> (fds w) in
  let fd1 := fresh (dom F1) in
  let F2 := <[fd1 := PipeEnd (npipes w) true]> F1 in
  let fd2 := fresh (dom F2) in
  let a := fresh (dom (files w)) in
  let H1 := <[a := OsFile fd2 path false]> (files w) in
  let a' := fresh (dom H1) in
  createSrv w path =
  (Ok a',
   World F1 (nfd w) (srv w) (S (npipes w))
         (<[a := OsFile fd2 path true]> (<[a' := OsFile fd0 path false]> H1))
         (incoming w) (outgoing w)).
Proof.
  destruct w as [F n S k H I O]. cbn [fds nfd srv npipes files incoming outgoing].
  intros Hn Hs. cbv zeta.
  unfold createSrv, Kernel.pipe.
  rewrite newfd_Some by (cbn [fds nfd]; lia).
  unfold set_fds at 1. cbn [fds nfd srv npipes files incoming outgoing].
  rewrite newfd_Some
    by (cbn [fds nfd]; rewrite map_size_insert_None by apply fresh_free; lia).
  unfold set_fds, set_npipes.
  cbn [fds nfd srv npipes files incoming outgoing].
  unfold Kernel.create.
  change (negb _) with false. cbn [srv]. rewrite Hs.
  rewrite newfd_Some
    by (cbn [fds nfd]; rewrite !map_size_insert_None by apply fresh_free; lia).
  change (Z.testbit _ 6) with true.
  unfold Os.NewFile, Os.Fprintf_d, Os.Write, set_fds, set_srv, set_files.
  cbn [fds nfd srv npipes files incoming outgoing].
  rewrite lookup_insert_eq. cbn [closed fd].
  unfold Kernel.write, set_srv.
  cbn [fds nfd srv npipes files incoming outgoing].
  rewrite !lookup_insert_eq, atoi_itoa. cbn [mbind option_bind].
  rewrite lookup_insert_ne by apply fresh_ne.
  rewrite lookup_insert_eq, decide_False by (intros E; by apply E).
  unfold Os.Close, set_files.
  cbn [fds nfd srv npipes files incoming outgoing].
  rewrite lookup_insert_ne by apply fresh_ne.
  rewrite lookup_insert_eq. cbn [closed fd fname].
  unfold Kernel.close, set_fds, set_srv.
  cbn [fds nfd srv npipes files incoming outgoing snd].
  rewrite lookup_insert_eq.
  cbn [fds nfd srv npipes files incoming outgoing snd].
  rewrite !delete_insert_eq, (delete_id S path) by done.
  rewrite delete_id by apply fresh_free.
  rewrite lookup_insert_eq.
  cbn [fds nfd srv npipes files incoming outgoing snd].
  rewrite delete_insert_eq, delete_id by apply fresh_free.
  reflexivity.
Qed.

(** It succeeds in no other case. *)
Lemma createSrv_Ok_inv w path f w1 :
  createSrv w path = (Ok f, w1) →
  size (fds w) + 3 ≤ nfd w ∧ srv w !! path = None.
Proof.
  destruct w as [F n S k H I O].
  cbn [fds nfd srv npipes files incoming outgoing].
  unfold createSrv, Kernel.pipe, Kernel.newfd. cbn [fds nfd].
  destruct (decide (size F < n)) as [H1|]; [|discriminate].
  world_simpl.
  rewrite map_size_insert_None by apply fresh_free.
  destruct (decide (Datatypes.S (size F) < n)) as [H2|]; [|discriminate].
  unfold Kernel.create, Kernel.newfd.
  change (negb _) with false. world_simpl.
  destruct (S !! path) eqn:Hs; [discriminate|].
  rewrite !map_size_insert_None by apply fresh_free.
  destruct (decide (Datatypes.S (Datatypes.S (size F)) < n)) as [H3|];
    [|discriminate].
  intros _. split; [lia|reflexivity].
Qed.

(** A listener and its [Close] leave the descriptor table and /srv as
    they found them. *)
Lemma listen_Close_restores w p sl w1 r w2 :
  listen w p = (Ok sl, w1) → Close w1 sl = (r, w2) →
  r = None ∧ fds w2 = fds w ∧ nfd w2 = nfd w ∧ srv w2 = srv w.
Proof.
  unfold listen. intros Hl.
  destruct (createSrv w p) as [[f|e] w1'] eqn:Hc; [|discriminate].
  injection Hl as <- <-.
  destruct (createSrv_Ok_inv _ _ _ _ Hc) as [Hn Hs].
  rewrite (createSrv_ok w p Hn Hs) in Hc. cbv zeta in Hc.
  injection Hc as <- <-.
  unfold Close, Os.Close. cbn [sl_file files].
  rewrite lookup_insert_ne by (apply not_eq_sym, fresh_ne).
  rewrite lookup_insert_eq. cbn [closed fd fname].
  unfold Kernel.close, set_files, set_fds.
  cbn [fds nfd srv npipes files incoming outgoing].
  rewrite lookup_insert_eq. intros [= <- <-].
  cbn [fds nfd srv npipes files incoming outgoing].
  rewrite delete_insert_id by apply fresh_free. done.
Qed.

(** A read changes nothing but the queue it reads from. *)
Lemma set_incoming_same w : w = set_incoming w (incoming w).
Proof. by destruct w. Qed.

Lemma Os_Read_only_incoming w f b :
  snd (Os.Read w f b) = set_incoming w (incoming (snd (Os.Read w f b))).
Proof.
  unfold Os.Read. destruct (files w !! f) as [o|];
    [|apply set_incoming_same].
  destruct (closed o); [apply set_incoming_same|].
  unfold Kernel.read.
  destruct (fds w !! fd o) as [[p s|name rc]|];
    [|apply set_incoming_same..].
  destruct (default [] (incoming w !! fd o)) as [|[d|e] rest];
    [apply set_incoming_same| |reflexivity].
  simpl. case_decide; reflexivity.
Qed.

Lemma Accept_only_incoming w sl :
  snd (Accept w sl) = set_incoming w (incoming (snd (Accept w sl))).
Proof.
  funelim (Accept w sl);
    match goal with
    | H : Os.Read ?w ?f ?b = _ |- _ =>
        pose proof (Os_Read_only_incoming w f b) as Hw; rewrite H in Hw
    end; simpl in Hw; [exact Hw..|].
  match goal with IH : snd (Accept _ _) = _ |- _ => rewrite IH at 1 end.
  rewrite Hw. reflexivity.
Qed.

(** What a successful [listen] leaves: one more pipe, whose end 0 is
    the open file of the listener, and /srv as it was, the name the
    kernel registered for the pipe being removed again before [listen]
    returns. *)
Lemma listen_Ok_inv w p sl w1 :
  listen w p = (Ok sl, w1) →
  sl_name sl = p
  ∧ npipes w1 = S (npipes w)
  ∧ srv w1 = srv w ∧ srv w !! p = None
  ∧ ∃ o, files w1 !! sl_file sl = Some o ∧ closed o = false
         ∧ fds w1 !! fd o = Some (PipeEnd (npipes w) false).
Proof.
  unfold listen. intros Hl.
  destruct (createSrv w p) as [[f|e] w1'] eqn:Hc; [|discriminate].
  injection Hl as <- <-.
  destruct (createSrv_Ok_inv _ _ _ _ Hc) as [Hn Hs].
  rewrite (createSrv_ok w p Hn Hs) in Hc. cbv zeta in Hc.
  injection Hc as <- <-.
  cbn [sl_name sl_file fds nfd srv npipes files].
  repeat split; try done.
  eexists. rewrite lookup_insert_ne by (apply not_eq_sym, fresh_ne).
  rewrite lookup_insert_eq. repeat split. cbn [fd].
  apply lookup_insert_eq.
Qed.

End ListenFacts.

(** * The claims *)

Module Claims.
Import Safesocket Trace Scenario AcceptFacts ReadFacts AcceptResults Pieces FileFacts
       ListenFacts.

Local Abbreviation token_buf := (make (String.length Hello)).

(** C1.  [Accept] returns a Conn only after a read has delivered the
    five bytes "Hello", whole: if it returns one, then some number [n]
    of reads were passed over (each returned without error a buffer
    that is not the token, and none of them produced a Conn), and read
    number [n] returned the count 5 and the bytes of "Hello"; the Conn
    is handed out in the world that read left. *)
Theorem Accept_only_after_token w sl c w' :
  Accept w sl = (Ret c, w') →
  ∃ n,
    (∀ i, i < n → noise (after_reads i w (sl_file sl)) (sl_file sl) = true)
    ∧ Os.Read (after_reads n w (sl_file sl)) (sl_file sl) token_buf
      = (Some (Os.ReadRes 5 None (bytes Hello)), w')
    ∧ c = FileConn (sl_name sl) (sl_file sl).
Proof.
  intros H. destruct (Accept_trace w sl) as (n & Hlt & Hn).
  exists n. split; [exact Hlt|].
  rewrite (Accept_after_noise n) in H by exact Hlt.
  exact (Accept_settles_on_token _ _ _ _ Hn H).
Qed.

(** A run of it: two pieces of a token are passed over, the third
    message starts with a whole one. *)
Lemma Accept_only_after_token_witness :
  let w := serving [Msg (bytes "Hel"); Msg (bytes "lo"); Msg (bytes "HelloPING")] in
  Accept w server = (Ret (FileConn sock 0), snd (Accept w server))
  ∧ ∃ n,
      (∀ i, i < n → noise (after_reads i w 0) 0 = true)
      ∧ Os.Read (after_reads n w 0) 0 token_buf
        = (Some (Os.ReadRes 5 None (bytes Hello)), snd (Accept w server))
      ∧ FileConn sock 0 = FileConn sock 0.
Proof.
  intros w.
  assert (H : Accept w server = (Ret (FileConn sock 0), snd (Accept w server)))
    by (vm_compute; reflexivity).
  split; [exact H|].
  exact (Accept_only_after_token w server _ _ H).
Defined.

(** C7.  A read error ends [Accept] at once: when the reads before
    turn [n] were all passed over and the read of turn [n] returns the
    error [e], [Accept] returns [e], no Conn, and leaves the world as
    that read left it. *)
Theorem Accept_read_error_propagates w sl n r e w' :
  (∀ i, i < n → noise (after_reads i w (sl_file sl)) (sl_file sl) = true) →
  Os.Read (after_reads n w (sl_file sl)) (sl_file sl) token_buf = (Some r, w') →
  Os.rd_err r = Some e →
  Accept w sl = (Fail e, w').
Proof.
  intros Hlt Hr He.
  rewrite (Accept_after_noise n) by exact Hlt.
  rewrite Accept_step, Hr, He. reflexivity.
Qed.

(** A run of it: one message of noise, then the pipe fails. *)
Lemma Accept_read_error_propagates_witness :
  let w := serving [Msg (bytes "junk"); RFail "i/o on hungup channel";
                    Msg (bytes "Hello")] in
  Accept w server
  = (Fail (ErrorString "i/o on hungup channel"), queued w 3 [Msg (bytes "Hello")]).
Proof.
  intros w.
  apply (Accept_read_error_propagates w server 1
           (Os.ReadRes 0 (Some (ErrorString "i/o on hungup channel")) token_buf)).
  - intros [|i] Hi; [vm_compute; reflexivity|lia].
  - vm_compute. reflexivity.
  - reflexivity.
Defined.

(** C9.  No reassembly: when the token reaches the listener's pipe in
    two or more non-empty pieces, [Accept] reads each piece, finds it
    different from the token and drops it, and goes on exactly as if
    the pieces had never been sent; a Conn it returns afterwards comes
    from a later single read that delivered all five bytes. *)
Theorem Accept_no_reassembly w sl o p s parts rest :
  files w !! sl_file sl = Some o → closed o = false →
  fds w !! fd o = Some (PipeEnd p s) →
  incoming w !! fd o = Some ((Msg <$> parts) ++ rest) →
  concat parts = bytes Hello →
  Forall (λ d, d ≠ []) parts → 2 ≤ length parts →
  Accept w sl = Accept (queued w (fd o) rest) sl
  ∧ ∀ c w', Accept w sl = (Ret c, w') →
      ∃ n, Os.Read (after_reads n (queued w (fd o) rest) (sl_file sl))
                   (sl_file sl) token_buf
           = (Some (Os.ReadRes 5 None (bytes Hello)), w').
Proof.
  intros Hf Hc Hfd Hq Hcat Hne Hlen.
  assert (Hskip : Accept w sl = Accept (queued w (fd o) rest) sl).
  { apply (Accept_skips_partials sl o p s parts); try done.
    pose proof (piece_shorter parts Hne Hlen) as Hall.
    rewrite Hcat in Hall. exact Hall. }
  split; [exact Hskip|].
  intros c w' Hret. rewrite Hskip in Hret.
  destruct (Accept_trace (queued w (fd o) rest) sl) as (n & Hlt & Hn).
  exists n. rewrite (Accept_after_noise n) in Hret by exact Hlt.
  exact (proj1 (Accept_settles_on_token _ _ _ _ Hn Hret)).
Qed.

(** A run of it: "Hel" and "lo" are dropped, and the listener is where
    it would be had only the whole token been sent. *)
Lemma Accept_no_reassembly_witness :
  let w := serving [Msg (bytes "Hel"); Msg (bytes "lo"); Msg (bytes "Hello")] in
  let w' := queued w 3 [Msg (bytes "Hello")] in
  Accept w server = Accept w' server
  ∧ ∀ c v, Accept w server = (Ret c, v) →
      ∃ n, Os.Read (after_reads n w' 0) 0 token_buf
           = (Some (Os.ReadRes 5 None (bytes Hello)), v).
Proof.
  intros w w'.
  apply (Accept_no_reassembly w server (OsFile 3 sock false) 0 false
           [bytes "Hel"; bytes "lo"] [Msg (bytes "Hello")]).
  - vm_compute; reflexivity.
  - reflexivity.
  - vm_compute; reflexivity.
  - vm_compute; reflexivity.
  - reflexivity.
  - repeat constructor; discriminate.
  - simpl; lia.
Defined.

(** C3.  Every deadline setter of a Conn returns [syscall.EPLAN9]
    ("not supported by plan 9"), whatever the time, never success, and
    leaves the world as it was. *)
Theorem deadlines_unsupported w fc t :
  Conn.SetDeadline w fc t = (Some EPLAN9, w)
  ∧ Conn.SetReadDeadline w fc t = (Some EPLAN9, w)
  ∧ Conn.SetWriteDeadline w fc t = (Some EPLAN9, w).
Proof. repeat split. Qed.

(** The statement of C2 fails on the code: the kernel takes three of the
    five bytes, [File.Write] reports that as [io.ErrShortWrite], and
    [connect] returns that error from its [err != nil] test, before it
    looks at the count. *)
Lemma connect_short_write_not_bad_handshake :
  ¬ short_write_is_bad_handshake (client [Took 3]) strategy.
Proof.
  intros H.
  pose (o := Os.OpenFile (client [Took 3]) sock Kernel.O_RDWR 438%Z).
  specialize (H 0 (snd o) 3 (Some ErrShortWrite)
                (snd (Os.Write (snd o) 0 (bytes Hello)))).
  assert (Hc : fst (connect (client [Took 3]) strategy) = Err ErrShortWrite)
    by (vm_compute; reflexivity).
  rewrite H in Hc; [discriminate| | |simpl; lia]; vm_compute; reflexivity.
Qed.

(** C2.  The defect at work.  The source means a short write to end in
    [errors.New("Bad handshake")]: it compares the count with
    [len("Hello")] right after the write.  A client opens the posted
    name, the kernel takes three of the five token bytes, and
    [File.Write] hands back the count 3 together with
    [io.ErrShortWrite]; [connect] returns that error from the
    [err != nil] test that comes first, in the world the one write left,
    and the bad-handshake error the comparison was written for is not
    what the caller gets. *)
Theorem connect_short_write_misses_bad_handshake :
  let w := client [Took 3] in
  ∃ f w1 w2,
    Os.OpenFile w (path strategy) Kernel.O_RDWR 438%Z = (Ok f, w1)
    ∧ Os.Write w1 f (bytes Hello) = ((3, Some ErrShortWrite), w2)
    ∧ 3 < String.length Hello
    ∧ connect w strategy = (Err ErrShortWrite, w2)
    ∧ connect w strategy ≠ (Err (ErrorsNew "Bad handshake"), w2).
Proof.
  intros w.
  exists 0, (snd (Os.OpenFile w sock Kernel.O_RDWR 438%Z)),
         (snd (connect w strategy)).
  assert (Hc : connect w strategy = (Err ErrShortWrite, snd (connect w strategy)))
    by (vm_compute; reflexivity).
  split; [vm_compute; reflexivity|]. split; [vm_compute; reflexivity|].
  split; [simpl; lia|]. split; [exact Hc|].
  rewrite Hc. intros [=].
Qed.

(** The same for every world: after the path is opened the token is
    written once; when that write reports fewer bytes than the token
    has, it also reports an error, and [connect] returns that error and
    no Conn, in the world the one write left (nothing is written again).
    The error is never one made by [errors.New], so the comparison of
    the count that follows in the source never sees a short write and
    its bad-handshake branch is dead. *)
Theorem connect_short_write w s f w1 n err w2 :
  Os.OpenFile w (path s) Kernel.O_RDWR 438%Z = (Ok f, w1) →
  Os.Write w1 f (bytes Hello) = ((n, err), w2) →
  n < String.length Hello →
  ∃ e, err = Some e ∧ e ≠ ErrorsNew "Bad handshake"
       ∧ connect w s = (Err e, w2).
Proof.
  intros Ho Hw Hn.
  destruct (Os_Write_short _ _ _ _ _ _ Hw) as (e & -> & He).
  { change (length (bytes Hello)) with 5. simpl in Hn. lia. }
  exists e. split; [reflexivity|]. split; [apply He|].
  unfold connect. rewrite Ho, Hw. reflexivity.
Qed.

Lemma connect_short_write_witness :
  ∃ e, Some ErrShortWrite = Some e ∧ e ≠ ErrorsNew "Bad handshake"
       ∧ connect (client [Took 3]) strategy
         = (Err e, snd (connect (client [Took 3]) strategy)).
Proof.
  apply (connect_short_write (client [Took 3]) strategy 0
           (snd (Os.OpenFile (client [Took 3]) sock Kernel.O_RDWR 438%Z)) 3).
  - vm_compute; reflexivity.
  - vm_compute; reflexivity.
  - simpl; lia.
Defined.

(** C8, as stated, fails: on a listener fresh from [listen] the first
    [Close] returns nil and the second returns [os.ErrClosed]. *)
Lemma Close_twice_differs : ¬ Close_twice_same listening the_listener.
Proof.
  unfold Close_twice_same.
  destruct (Close listening the_listener) as [r1 w1] eqn:H1.
  destruct (Close w1 the_listener) as [r2 w2] eqn:H2.
  intros [Hr _].
  assert (E1 : r1 = None)
    by (apply (f_equal fst) in H1; vm_compute in H1; congruence).
  assert (E2 : r2 = Some ErrClosed).
  { apply (f_equal snd) in H1. apply (f_equal fst) in H2. simpl in *.
    subst w1. vm_compute in H2. congruence. }
  congruence.
Qed.

(** C8, amended.  A second [Close] of a listener changes nothing
    further, and returns [os.ErrClosed] whatever the first returned. *)
Theorem Close_again w sl r1 w1 :
  is_Some (files w !! sl_file sl) →
  Close w sl = (r1, w1) →
  Close w1 sl = (Some ErrClosed, w1).
Proof.
  intros Hf H1. unfold Close in *.
  apply Os_Close_closed.
  replace w1 with (snd (Os.Close w (sl_file sl))) by (by rewrite H1).
  by apply Os_Close_closes.
Qed.

Lemma Close_again_witness :
  Close (snd (Close listening the_listener)) the_listener
  = (Some ErrClosed, snd (Close listening the_listener)).
Proof.
  apply (Close_again listening the_listener
           (fst (Close listening the_listener))).
  - vm_compute. by eexists.
  - by destruct (Close listening the_listener).
Defined.

(** C6.  Once [Close] has returned on a Conn, whatever is called on the
    backend afterwards (reads, writes, closes, deadline setters,
    accepts, connects, listens, on this or any other Conn or
    Listener), a [Read] or a [Write] on that Conn returns
    [os.ErrClosed] with count 0, the buffer untouched and the world
    unchanged. *)
Theorem io_after_Close_fails w fc cs b :
  is_Some (files w !! fc_file fc) →
  let w' := run_all (snd (Conn.Close w fc)) cs in
  Conn.Read w' fc b = (Some (Os.ReadRes 0 (Some ErrClosed) b), w')
  ∧ Conn.Write w' fc b = ((0, Some ErrClosed), w').
Proof.
  intros Hf w'.
  assert (Hc : is_closed w' (fc_file fc) = true).
  { apply (run_all_keeps_closed cs). by apply Os_Close_closes. }
  split; [by apply Os_Read_closed|by apply Os_Write_closed].
Qed.

(** A run of it: the Conn of the daemon is closed with "PING" still
    queued; after a deadline call and a [listen], a read and a write on
    it both fail. *)
Lemma io_after_Close_fails_witness :
  let fc := FileConn sock 0 in
  let w' := run_all (snd (Conn.Close (serving [Msg (bytes "PING")]) fc))
                    [CallSetReadDeadline fc 0%Z; CallListen sock] in
  Conn.Read w' fc (make 4) = (Some (Os.ReadRes 0 (Some ErrClosed) (make 4)), w')
  ∧ Conn.Write w' fc (bytes "PONG") = ((0, Some ErrClosed), w').
Proof.
  intros fc w'. split.
  - apply (io_after_Close_fails (serving [Msg (bytes "PING")]) fc
             [CallSetReadDeadline fc 0%Z; CallListen sock] (make 4)).
    vm_compute. by eexists.
  - apply (io_after_Close_fails (serving [Msg (bytes "PING")]) fc
             [CallSetReadDeadline fc 0%Z; CallListen sock] (bytes "PONG")).
    vm_compute. by eexists.
Defined.



(** C5.  A successful [listen] creates exactly one pipe and binds the
    listener to the open file on its end 0; every [Accept] on that
    listener, in whatever world, leaves the pipes, the descriptor table
    and the files as they are (it only consumes queued input), and a
    Conn it returns holds the very file of the listener. *)
Theorem one_channel_per_listener w p sl w1 :
  listen w p = (Ok sl, w1) →
  npipes w1 = S (npipes w)
  ∧ (∃ o, files w1 !! sl_file sl = Some o ∧ closed o = false
          ∧ fds w1 !! fd o = Some (PipeEnd (npipes w) false))
  ∧ ∀ v res v', Accept v sl = (res, v') →
      npipes v' = npipes v ∧ fds v' = fds v ∧ files v' = files v
      ∧ ∀ c, res = Ret c → fc_file c = sl_file sl ∧ fc_name c = sl_name sl.
Proof.
  intros Hl.
  destruct (listen_Ok_inv _ _ _ _ Hl) as (_ & Hp & _ & _ & Ho).
  split; [exact Hp|]. split; [exact Ho|].
  intros v res v' Ha.
  pose proof (Accept_only_incoming v sl) as Hv. rewrite Ha in Hv.
  simpl in Hv. rewrite Hv. split; [done|]. split; [done|]. split; [done|].
  intros c ->. destruct (Accept_trace v sl) as (n & Hlt & Hn).
  rewrite (Accept_after_noise n) in Ha by exact Hlt.
  destruct (Accept_settles_on_token _ _ _ _ Hn Ha) as [_ ->]. done.
Qed.

(** A run of it: the listener made at boot accepts a client. *)
Lemma one_channel_per_listener_witness :
  npipes listening = 1
  ∧ (∃ o, files listening !! 1 = Some o ∧ closed o = false
          ∧ fds listening !! fd o = Some (PipeEnd 0 false))
  ∧ ∀ v res v', Accept v the_listener = (res, v') →
      npipes v' = npipes v ∧ fds v' = fds v ∧ files v' = files v
      ∧ ∀ c, res = Ret c → fc_file c = 1 ∧ fc_name c = sock.
Proof.
  apply (one_channel_per_listener boot sock the_listener listening).
  vm_compute; reflexivity.
Defined.

End Claims.

(** * Beyond the claims: the rest of the file *)

(** ** Opening a posted name *)

Module OpenFacts.
Import Safesocket Trace FileFacts ListenFacts.

Lemma OpenFile_nonexist w p flag perm :
  srv w !! p = None → Os.OpenFile w p flag perm = (Err Kernel.Enonexist, w).
Proof. intros H. unfold Os.OpenFile, Kernel.open. by rewrite H. Qed.

(** An open that fails changes nothing. *)
Lemma OpenFile_Err_inv w p flag perm e w1 :
  Os.OpenFile w p flag perm = (Err e, w1) → w1 = w.
Proof.
  unfold Os.OpenFile, Kernel.open.
  destruct (srv w !! p) as [[c|]|]; [|by intros [= _ <-]..].
  destruct (Kernel.newfd w); [discriminate|by intros [= _ <-]].
Qed.

(** An open that succeeds found a channel posted under the name, took a
    descriptor the process did not hold, and wrapped it in a file object
    that did not exist. *)
Lemma OpenFile_Ok_inv w p flag perm f w1 :
  Os.OpenFile w p flag perm = (Ok f, w1) →
  ∃ c, srv w !! p = Some (Some c) ∧ size (fds w) < nfd w
       ∧ f = fresh (dom (files w))
       ∧ w1 = set_files (set_fds w (<[fresh (dom (fds w)) := c]> (fds w)))
                (<[f := OsFile (fresh (dom (fds w))) p false]> (files w)).
Proof.
  unfold Os.OpenFile, Kernel.open, Kernel.newfd.
  destruct (srv w !! p) as [[c|]|]; [|discriminate..].
  case_decide; [|discriminate].
  unfold Os.NewFile. intros [= <- <-]. by exists c.
Qed.

Lemma Kernel_write_fds w n b : fds (snd (Kernel.write w n b)) = fds w.
Proof.
  unfold Kernel.write.
  destruct (fds w !! n) as [[p s|name rc]|]; [| |reflexivity].
  - destruct (default [] (outgoing w !! n)) as [|[k|e] rest]; reflexivity.
  - destruct (srv w !! name) as [[c|]|]; [reflexivity| |reflexivity].
    destruct (atoi b ≫= _); reflexivity.
Qed.

Lemma Os_Write_fds w f b : fds (snd (Os.Write w f b)) = fds w.
Proof.
  unfold Os.Write. destruct (files w !! f) as [o|]; [|reflexivity].
  destruct (closed o); [reflexivity|].
  pose proof (Kernel_write_fds w (fd o) b) as H.
  destruct (Kernel.write w (fd o) b) as [[n e] w1]. exact H.
Qed.

End OpenFacts.

(** ** When [createSrv] fails *)

Module ListenCases.
Import Safesocket Trace FileFacts ListenFacts.

(** The world [createSrv] leaves when it fails after [Pipe]: the read end
    of the pipe stays in the descriptor table (only [pip[1]] is closed by
    [defer]), and nothing else has changed. *)
Lemma createSrv_no_pipe w p :
  ¬ size (fds w) + 2 ≤ nfd w → createSrv w p = (Err Kernel.Enofd, w).
Proof.
  destruct w as [F n S k H I O].
  cbn [fds nfd srv npipes files incoming outgoing]. intros Hn.
  unfold createSrv, Kernel.pipe, Kernel.newfd. cbn [fds nfd].
  destruct (decide (size F < n)) as [H1|]; [|reflexivity].
  world_simpl. rewrite map_size_insert_None by apply fresh_free.
  rewrite decide_False by lia. reflexivity.
Qed.

Lemma createSrv_after_pipe w p :
  size (fds w) + 2 ≤ nfd w →
  (is_Some (srv w !! p) ∨ ¬ size (fds w) + 3 ≤ nfd w) →
  createSrv w p =
  (Err (match srv w !! p with Some _ => Kernel.Eexist | None => Kernel.Enofd end),
   set_npipes
     (set_fds w (<[fresh (dom (fds w)) := PipeEnd (npipes w) false]> (fds w)))
     (S (npipes w))).
Proof.
  destruct w as [F n S k H I O].
  cbn [fds nfd srv npipes files incoming outgoing]. intros Hn Hor.
  unfold createSrv, Kernel.pipe.
  rewrite newfd_Some by (cbn [fds nfd]; lia).
  unfold set_fds at 1. cbn [fds nfd srv npipes files incoming outgoing].
  rewrite newfd_Some
    by (cbn [fds nfd]; rewrite map_size_insert_None by apply fresh_free; lia).
  world_simpl. unfold Kernel.create, Kernel.newfd.
  change (negb _) with false. world_simpl.
  assert (Hclose : ∀ e : error,
    (Err e : result file,
     (Kernel.close
        {| fds := <[fresh (dom (<[fresh (dom F):=PipeEnd k false]> F)):=
                      PipeEnd k true]> (<[fresh (dom F):=PipeEnd k false]> F);
           nfd := n; srv := S; npipes := Datatypes.S k; files := H;
           incoming := I; outgoing := O |}
        (fresh (dom (<[fresh (dom F):=PipeEnd k false]> F)))).2)
    = (Err e,
       {| fds := <[fresh (dom F):=PipeEnd k false]> F; nfd := n; srv := S;
          npipes := Datatypes.S k; files := H; incoming := I;
          outgoing := O |})).
  { intros e. unfold Kernel.close. world_simpl. rewrite lookup_insert_eq.
    world_simpl. by rewrite delete_insert_id by apply fresh_free. }
  destruct (S !! p) as [x|] eqn:Hs; [apply Hclose|].
  destruct Hor as [[x Hx]|Hn3]; [discriminate|].
  rewrite !map_size_insert_None by apply fresh_free.
  rewrite decide_False by lia. apply Hclose.
Qed.

End ListenCases.

(** ** More on what [Accept] reads and leaves *)

Module AcceptMore.
Import Safesocket Trace AcceptFacts ReadFacts AcceptResults Pieces FileFacts
       ListenFacts.

Local Abbreviation token_buf := (make (String.length Hello)).

(** A listener that has just handed out a Conn is still open, on a pipe. *)
Lemma Accept_Ret_open w sl : ∀ c w',
  Accept w sl = (Ret c, w') →
  ∃ o p s, files w' !! sl_file sl = Some o ∧ closed o = false
           ∧ fds w' !! fd o = Some (PipeEnd p s)
           ∧ c = FileConn (sl_name sl) (sl_file sl).
Proof.
  funelim (Accept w sl); intros c w' Hret; try discriminate.
  - injection Hret as <- <-.
    destruct (Read_ok_inv _ _ _ _ _ Hread Herr)
      as (o & p & s & d & rest & Hf & Hc & Hfd & _ & _ & ->).
    by exists o, p, s.
  - eauto.
Qed.

(** The first five bytes of a queued message are not the token: they are
    dropped, and scanning goes on in what is left of the message. *)
Lemma Accept_skips_front w sl o p s d rest :
  files w !! sl_file sl = Some o → closed o = false →
  fds w !! fd o = Some (PipeEnd p s) →
  incoming w !! fd o = Some (Msg d :: rest) →
  d ≠ [] → take 5 d ≠ bytes Hello →
  Accept w sl =
  Accept (queued w (fd o)
            (if decide (5 < length d) then Msg (drop 5 d) :: rest else rest)) sl.
Proof.
  intros Hf Hc Hfd Hq Hd Hne.
  assert (Hread := Read_msg w (sl_file sl) o p s d rest token_buf Hf Hc Hfd Hq Hd).
  change (length token_buf) with 5 in Hread.
  rewrite Accept_step, Hread by lia. cbn [Os.rd_err Os.rd_buf].
  destruct (String.eqb _ Hello) eqn:He; [|reflexivity].
  apply String.eqb_eq, token_in_full in He; [done|].
  rewrite length_take. lia.
Qed.

(** The first five bytes of a queued message are the token: a Conn. *)
Lemma Accept_takes_front w sl o p s d rest :
  files w !! sl_file sl = Some o → closed o = false →
  fds w !! fd o = Some (PipeEnd p s) →
  incoming w !! fd o = Some (Msg d :: rest) →
  take 5 d = bytes Hello →
  Accept w sl =
  (Ret (FileConn (sl_name sl) (sl_file sl)),
   queued w (fd o)
     (if decide (5 < length d) then Msg (drop 5 d) :: rest else rest)).
Proof.
  intros Hf Hc Hfd Hq Ht.
  assert (Hd : d ≠ []) by (intros ->; discriminate).
  assert (Hread := Read_msg w (sl_file sl) o p s d rest token_buf Hf Hc Hfd Hq Hd).
  change (length token_buf) with 5 in Hread.
  rewrite Accept_step, Hread by lia. cbn [Os.rd_err Os.rd_buf].
  rewrite Ht. reflexivity.
Qed.

(** A read leaves the queues of the other descriptors alone. *)
Lemma Os_Read_other_queue w f o b n :
  files w !! f = Some o → n ≠ fd o →
  incoming (snd (Os.Read w f b)) !! n = incoming w !! n.
Proof.
  intros Hf Hn. unfold Os.Read. rewrite Hf.
  destruct (closed o); [reflexivity|]. unfold Kernel.read.
  destruct (fds w !! fd o) as [[p s|name rc]|]; [|reflexivity..].
  destruct (default [] (incoming w !! fd o)) as [|[d|e] rest]; [reflexivity| |].
  - simpl. case_decide; simpl; by rewrite lookup_insert_ne.
  - simpl. by rewrite lookup_insert_ne.
Qed.

(** A read that waits found an open file on a pipe with nothing queued,
    and changed nothing. *)
Lemma Read_None_inv w f b w1 :
  Os.Read w f b = (None, w1) →
  w1 = w
  ∧ ∃ o p s, files w !! f = Some o ∧ closed o = false
             ∧ fds w !! fd o = Some (PipeEnd p s)
             ∧ default [] (incoming w !! fd o) = [].
Proof.
  unfold Os.Read. destruct (files w !! f) as [o|]; [|discriminate].
  destruct (closed o) eqn:Hc; [discriminate|]. unfold Kernel.read.
  destruct (fds w !! fd o) as [[p s|name rc]|] eqn:Hfd; [|discriminate..].
  destruct (default [] (incoming w !! fd o)) as [|[d|e] rest] eqn:Hq.
  - intros [= <-]. split; [reflexivity|]. by exists o, p, s.
  - simpl. case_decide; discriminate.
  - discriminate.
Qed.

(** On a closed file [Accept] fails at its first read. *)
Lemma Accept_on_closed w sl :
  is_closed w (sl_file sl) = true → Accept w sl = (Fail ErrClosed, w).
Proof.
  intros Hc. rewrite Accept_step, (Os_Read_closed _ _ _ Hc). reflexivity.
Qed.

End AcceptMore.

(** * Further properties *)

Module Extras.
Import Safesocket Trace Scenario AcceptFacts ReadFacts AcceptResults Pieces
       FileFacts ListenFacts OpenFacts ListenCases AcceptMore.

Local Abbreviation token_buf := (make (String.length Hello)).

(** X1.  A Conn returned by [connect] is bound to the channel posted under
    [s.path]: the process holds one more descriptor, new, which refers to
    that channel; the Conn's file is a new open [os.File] around that
    descriptor, named [s.path]; and every file object that existed before
    is as it was. *)
Theorem connect_binds_posted_channel w s c w' :
  connect w s = (Ok c, w') →
  ∃ ch,
    srv w !! path s = Some (Some ch)
    ∧ fc_name c = path s
    ∧ files w !! fc_file c = None
    ∧ fds w !! fresh (dom (fds w)) = None
    ∧ fds w' = <[fresh (dom (fds w)) := ch]> (fds w)
    ∧ files w' !! fc_file c = Some (OsFile (fresh (dom (fds w))) (path s) false)
    ∧ ∀ g, g ≠ fc_file c → files w' !! g = files w !! g.
Proof.
  unfold connect. intros H.
  destruct (Os.OpenFile w (path s) Kernel.O_RDWR 438%Z) as [[f|e] w1] eqn:Ho;
    [|discriminate].
  destruct (OpenFile_Ok_inv _ _ _ _ _ _ Ho) as (ch & Hs & _ & Hf & Hw1).
  pose proof (Os_Write_fds w1 f (bytes Hello)) as Hfds.
  pose proof (Os_Write_files w1 f (bytes Hello)) as Hfiles.
  destruct (Os.Write w1 f (bytes Hello)) as [[n [e|]] w2]; [discriminate|].
  case_decide; [discriminate|]. injection H as <- <-.
  simpl in Hfds, Hfiles. exists ch. rewrite Hfds, Hfiles, Hw1. simpl.
  split; [exact Hs|]. split; [reflexivity|].
  split; [subst f; apply fresh_free|]. split; [apply fresh_free|].
  split; [reflexivity|]. split; [apply lookup_insert_eq|].
  intros g Hg. by apply lookup_insert_ne.
Qed.

(** A run of it: the client of the scenario, with the kernel taking all
    it writes. *)
Lemma connect_binds_posted_channel_witness :
  ∃ ch,
    srv (client []) !! sock = Some (Some ch)
    ∧ sock = sock
    ∧ files (client []) !! 0 = None
    ∧ fds (client []) !! fresh (dom (fds (client []))) = None
    ∧ fds (snd (connect (client []) strategy))
      = <[fresh (dom (fds (client []))) := ch]> (fds (client []))
    ∧ files (snd (connect (client []) strategy)) !! 0
      = Some (OsFile (fresh (dom (fds (client [])))) sock false)
    ∧ ∀ g, g ≠ 0 → files (snd (connect (client []) strategy)) !! g
                   = files (client []) !! g.
Proof.
  apply (connect_binds_posted_channel (client []) strategy (FileConn sock 0)).
  vm_compute; reflexivity.
Defined.

(** X2.  [connect] to a name that is not in /srv fails with the kernel's
    "file does not exist"; nothing is written and the world is
    unchanged. *)
Theorem connect_no_such_name w s :
  srv w !! path s = None →
  connect w s = (Err Kernel.Enonexist, w).
Proof.
  intros H. unfold connect. by rewrite OpenFile_nonexist.
Qed.

Lemma connect_no_such_name_witness :
  connect boot strategy = (Err Kernel.Enonexist, boot).
Proof. apply (connect_no_such_name boot strategy). vm_compute; reflexivity. Defined.

(** X3.  [connect] does not close the file it opened when the handshake
    write fails: whenever the open succeeded and [connect] returns an
    error, the process is left holding one more descriptor than before,
    wrapped in an open file object that the caller never receives. *)
Theorem connect_failure_leaks_descriptor w s ch e w' :
  srv w !! path s = Some (Some ch) →
  size (fds w) < nfd w →
  connect w s = (Err e, w') →
  size (fds w') = S (size (fds w))
  ∧ files w' !! fresh (dom (files w))
    = Some (OsFile (fresh (dom (fds w))) (path s) false)
  ∧ fds w' !! fresh (dom (fds w)) = Some ch.
Proof.
  intros Hs Hn. unfold connect.
  destruct (Os.OpenFile w (path s) Kernel.O_RDWR 438%Z) as [[f|e0] w1] eqn:Ho.
  2: { unfold Os.OpenFile, Kernel.open in Ho. rewrite Hs, newfd_Some in Ho by done.
       discriminate. }
  destruct (OpenFile_Ok_inv _ _ _ _ _ _ Ho) as (ch' & Hs' & _ & Hf & Hw1).
  assert (ch' = ch) as -> by congruence.
  pose proof (Os_Write_fds w1 f (bytes Hello)) as Hfds.
  pose proof (Os_Write_files w1 f (bytes Hello)) as Hfiles.
  destruct (Os.Write w1 f (bytes Hello)) as [[n [e1|]] w2]; simpl in *.
  - intros [= <- <-]. rewrite Hfds, Hfiles, Hw1. simpl. subst f.
    rewrite map_size_insert_None by apply fresh_free.
    by rewrite !lookup_insert_eq.
  - case_decide; [|discriminate]. intros [= <- <-].
    rewrite Hfds, Hfiles, Hw1. simpl. subst f.
    rewrite map_size_insert_None by apply fresh_free.
    by rewrite !lookup_insert_eq.
Qed.

(** A run of it: the kernel takes three bytes of the token. *)
Lemma connect_failure_leaks_descriptor_witness :
  let w' := snd (connect (client [Took 3]) strategy) in
  size (fds w') = 1
  ∧ files w' !! fresh (dom (files (client [Took 3])))
    = Some (OsFile (fresh (dom (fds (client [Took 3])))) sock false)
  ∧ fds w' !! fresh (dom (fds (client [Took 3]))) = Some (PipeEnd 0 true).
Proof.
  apply (connect_failure_leaks_descriptor (client [Took 3]) strategy
           (PipeEnd 0 true) ErrShortWrite).
  - vm_compute; reflexivity.
  - vm_compute; lia.
  - vm_compute; reflexivity.
Defined.

(** X4.  [listen] succeeds whenever the name is free in /srv and the
    process can hold three more descriptors; the listener it returns
    carries the path as its name. *)
Theorem listen_succeeds w p :
  size (fds w) + 3 ≤ nfd w →
  srv w !! p = None →
  ∃ sl w1, listen w p = (Ok sl, w1) ∧ sl_name sl = p.
Proof.
  intros Hn Hs. unfold listen. rewrite (createSrv_ok w p Hn Hs). cbv zeta.
  by eexists _, _.
Qed.

Lemma listen_succeeds_witness :
  ∃ sl w1, listen boot sock = (Ok sl, w1) ∧ sl_name sl = sock.
Proof.
  apply (listen_succeeds boot sock).
  - vm_compute; lia.
  - vm_compute; reflexivity.
Defined.

(** X5.  [listen] needs room for three descriptors (two for the pipe, one
    for the /srv entry) although it keeps one: when it succeeds, the name
    was free, three descriptors were available, and the process holds
    exactly one more descriptor than before. *)
Theorem listen_needs_three_keeps_one w p sl w1 :
  listen w p = (Ok sl, w1) →
  size (fds w) + 3 ≤ nfd w
  ∧ srv w !! p = None
  ∧ size (fds w1) = S (size (fds w)).
Proof.
  unfold listen. intros Hl.
  destruct (createSrv w p) as [[f|e] w1'] eqn:Hc; [|discriminate].
  injection Hl as <- <-.
  destruct (createSrv_Ok_inv _ _ _ _ Hc) as [Hn Hs].
  split; [exact Hn|]. split; [exact Hs|].
  rewrite (createSrv_ok w p Hn Hs) in Hc. cbv zeta in Hc.
  injection Hc as <- <-. cbn [fds].
  by rewrite map_size_insert_None by apply fresh_free.
Qed.

Lemma listen_needs_three_keeps_one_witness :
  size (fds boot) + 3 ≤ nfd boot
  ∧ srv boot !! sock = None
  ∧ size (fds listening) = S (size (fds boot)).
Proof.
  apply (listen_needs_three_keeps_one boot sock the_listener listening).
  vm_compute; reflexivity.
Defined.

(** X6.  [listen] on a name that is already in /srv fails with the
    kernel's "file already exists", and leaks the read end of the pipe
    it had made: the descriptor stays in the table ([createSrv] defers a
    close of [pip[1]] only), no file object wraps it, and /srv is
    unchanged. *)
Theorem listen_name_in_use w p :
  is_Some (srv w !! p) →
  size (fds w) + 2 ≤ nfd w →
  ∃ w1,
    listen w p = (Err Kernel.Eexist, w1)
    ∧ fds w !! fresh (dom (fds w)) = None
    ∧ fds w1 = <[fresh (dom (fds w)) := PipeEnd (npipes w) false]> (fds w)
    ∧ files w1 = files w
    ∧ srv w1 = srv w.
Proof.
  intros Hs Hn. unfold listen.
  rewrite (createSrv_after_pipe w p Hn) by (by left).
  destruct Hs as [x ->]. eexists. split; [reflexivity|].
  split; [apply fresh_free|]. done.
Qed.

(** A run of it: the client's world, where the name is posted. *)
Lemma listen_name_in_use_witness :
  ∃ w1,
    listen (client []) sock = (Err Kernel.Eexist, w1)
    ∧ fds (client []) !! fresh (dom (fds (client []))) = None
    ∧ fds w1 = <[fresh (dom (fds (client []))) := PipeEnd 1 false]> (fds (client []))
    ∧ files w1 = files (client [])
    ∧ srv w1 = srv (client []).
Proof.
  apply (listen_name_in_use (client []) sock).
  - vm_compute. by eexists.
  - vm_compute; lia.
Defined.

(** X7.  Whatever [listen] returns, /srv is left exactly as it was.  On
    success too: the entry that [createSrv] creates with ORCLOSE is
    removed by the kernel when the deferred [srv.Close()] closes the
    descriptor that created it, before [createSrv] returns. *)
Theorem listen_leaves_srv_unchanged w p :
  srv (snd (listen w p)) = srv w.
Proof.
  unfold listen.
  destruct (decide (size (fds w) + 2 ≤ nfd w)) as [Hn2|Hn2].
  - destruct (srv w !! p) as [x|] eqn:Hs.
    + rewrite (createSrv_after_pipe w p Hn2) by (left; by eexists).
      reflexivity.
    + destruct (decide (size (fds w) + 3 ≤ nfd w)) as [Hn3|Hn3].
      * rewrite (createSrv_ok w p Hn3 Hs). reflexivity.
      * rewrite (createSrv_after_pipe w p Hn2) by (by right). reflexivity.
  - by rewrite (createSrv_no_pipe w p Hn2).
Qed.

(** X8.  A [connect] to the path of a listener that [listen] has just
    returned fails with "file does not exist": the name is not in /srv
    when [listen] returns. *)
Theorem connect_after_listen_fails w p sl w1 :
  listen w p = (Ok sl, w1) →
  connect w1 {| path := p |} = (Err Kernel.Enonexist, w1).
Proof.
  intros Hl.
  destruct (listen_Ok_inv _ _ _ _ Hl) as (_ & _ & Hsrv & Hs & _).
  unfold connect. cbn [path].
  rewrite OpenFile_nonexist by (by rewrite Hsrv). reflexivity.
Qed.

Lemma connect_after_listen_fails_witness :
  connect listening strategy = (Err Kernel.Enonexist, listening).
Proof.
  apply (connect_after_listen_fails boot sock the_listener listening).
  vm_compute; reflexivity.
Defined.

(** X9.  [listen] followed by [Close] of the listener leaks nothing: the
    [Close] returns nil, the listener's file is closed, and the
    descriptor table and /srv are what they were before [listen]. *)
Theorem listen_Close_leaks_nothing w p sl w1 r w2 :
  listen w p = (Ok sl, w1) →
  Close w1 sl = (r, w2) →
  r = None
  ∧ is_closed w2 (sl_file sl) = true
  ∧ fds w2 = fds w
  ∧ srv w2 = srv w.
Proof.
  intros Hl Hc.
  destruct (listen_Close_restores _ _ _ _ _ _ Hl Hc) as (Hr & Hfds & _ & Hsrv).
  destruct (listen_Ok_inv _ _ _ _ Hl) as (_ & _ & _ & _ & o & Ho & _).
  split; [exact Hr|]. split; [|done].
  replace w2 with (snd (Os.Close w1 (sl_file sl)))
    by (unfold Close in Hc; by rewrite Hc).
  apply Os_Close_closes. by eexists.
Qed.

Lemma listen_Close_leaks_nothing_witness :
  let w2 := snd (Close listening the_listener) in
  fst (Close listening the_listener) = None
  ∧ is_closed w2 1 = true
  ∧ fds w2 = fds boot
  ∧ srv w2 = srv boot.
Proof.
  apply (listen_Close_leaks_nothing boot sock the_listener listening).
  - vm_compute; reflexivity.
  - by destruct (Close listening the_listener).
Defined.

(** X10.  The Conn that [Accept] returns shares the listener's file, so
    closing the Conn closes the listener: the close succeeds, and from
    then on [Accept] on the listener returns [os.ErrClosed] at once and
    the listener's own [Close] returns [os.ErrClosed]. *)
Theorem Conn_Close_closes_listener w sl c w1 r w2 :
  Accept w sl = (Ret c, w1) →
  Conn.Close w1 c = (r, w2) →
  r = None
  ∧ Accept w2 sl = (Fail ErrClosed, w2)
  ∧ Close w2 sl = (Some ErrClosed, w2).
Proof.
  intros Ha Hc.
  destruct (Accept_Ret_open _ _ _ _ Ha) as (o & p & s & Hf & Ho & Hfd & ->).
  assert (Hcl : is_closed w2 (sl_file sl) = true).
  { replace w2 with (snd (Os.Close w1 (sl_file sl)))
      by (unfold Conn.Close in Hc; simpl in Hc; by rewrite Hc).
    apply Os_Close_closes. by eexists. }
  split.
  - unfold Conn.Close, Os.Close in Hc. cbn [fc_file] in Hc.
    rewrite Hf, Ho in Hc. unfold Kernel.close in Hc.
    cbn [fds set_files] in Hc. rewrite Hfd in Hc. by injection Hc as <- _.
  - split; [by apply Accept_on_closed|by apply Os_Close_closed].
Qed.

(** A run of it: the daemon accepts a client and closes its Conn. *)
Lemma Conn_Close_closes_listener_witness :
  let w1 := snd (Accept (serving [Msg (bytes "Hello")]) server) in
  let w2 := snd (Conn.Close w1 (FileConn sock 0)) in
  fst (Conn.Close w1 (FileConn sock 0)) = None
  ∧ Accept w2 server = (Fail ErrClosed, w2)
  ∧ Close w2 server = (Some ErrClosed, w2).
Proof.
  intros w1 w2.
  apply (Conn_Close_closes_listener (serving [Msg (bytes "Hello")]) server
           (FileConn sock 0) w1).
  - vm_compute; reflexivity.
  - by destruct (Conn.Close w1 (FileConn sock 0)).
Defined.

(** X11.  After [Close] of a listener, whatever is called on the backend
    afterwards, [Accept] on that listener returns [os.ErrClosed] without
    reading anything: the world is unchanged and no Conn is returned. *)
Theorem Accept_after_Close_fails w sl cs :
  is_Some (files w !! sl_file sl) →
  let w' := run_all (snd (Close w sl)) cs in
  Accept w' sl = (Fail ErrClosed, w').
Proof.
  intros Hf w'. apply Accept_on_closed.
  apply (run_all_keeps_closed cs). by apply Os_Close_closes.
Qed.

(** A run of it: a token is queued, the listener is closed, a client
    elsewhere calls [connect]; [Accept] fails all the same. *)
Lemma Accept_after_Close_fails_witness :
  let w' := run_all (snd (Close (serving [Msg (bytes "Hello")]) server))
                    [CallConnect strategy] in
  Accept w' server = (Fail ErrClosed, w').
Proof.
  apply (Accept_after_Close_fails (serving [Msg (bytes "Hello")]) server
           [CallConnect strategy]).
  vm_compute. by eexists.
Defined.

(** X12.  Every Conn a listener hands out is the same Conn: two Conns
    accepted from one listener, in whatever worlds, are equal, so once
    one of them is closed, reads and writes on the other fail with
    [os.ErrClosed], whatever was called in between. *)
Theorem accepted_Conns_are_one w sl c1 w1 v c2 v1 cs b :
  Accept w sl = (Ret c1, w1) →
  Accept v sl = (Ret c2, v1) →
  c1 = c2
  ∧ let u := run_all (snd (Conn.Close w1 c1)) cs in
    Conn.Read u c2 b = (Some (Os.ReadRes 0 (Some ErrClosed) b), u)
    ∧ Conn.Write u c2 b = ((0, Some ErrClosed), u).
Proof.
  intros H1 H2.
  destruct (Accept_Ret_open _ _ _ _ H1) as (o & p & s & Hf & _ & _ & ->).
  destruct (Accept_Ret_open _ _ _ _ H2) as (_ & _ & _ & _ & _ & _ & ->).
  split; [reflexivity|]. intros u.
  assert (Hc : is_closed u (sl_file sl) = true).
  { apply (run_all_keeps_closed cs). apply Os_Close_closes. by eexists. }
  split; [by apply Os_Read_closed|by apply Os_Write_closed].
Qed.

(** A run of it: two tokens queued, two accepts, the first Conn closed. *)
Lemma accepted_Conns_are_one_witness :
  let w := serving [Msg (bytes "Hello"); Msg (bytes "Hello")] in
  let w1 := snd (Accept w server) in
  let u := run_all (snd (Conn.Close w1 (FileConn sock 0))) [] in
  FileConn sock 0 = FileConn sock 0
  ∧ Conn.Read u (FileConn sock 0) (make 4)
    = (Some (Os.ReadRes 0 (Some ErrClosed) (make 4)), u)
  ∧ Conn.Write u (FileConn sock 0) (make 4) = ((0, Some ErrClosed), u).
Proof.
  intros w w1 u.
  apply (accepted_Conns_are_one w server (FileConn sock 0) w1 w1
           (FileConn sock 0) (snd (Accept w1 server)) [] (make 4)).
  - vm_compute; reflexivity.
  - vm_compute; reflexivity.
Defined.

(** X13.  [Accept] consumes the five token bytes and nothing more: when
    the first queued message starts with the token, [Accept] returns the
    Conn, and the bytes that followed the token in that message are what
    the first [Read] on the Conn delivers (into a buffer that has room
    for them). *)
Theorem Accept_consumes_exactly_the_token w sl o p s d rest :
  files w !! sl_file sl = Some o → closed o = false →
  fds w !! fd o = Some (PipeEnd p s) →
  incoming w !! fd o = Some (Msg (bytes Hello ++ d) :: rest) →
  let c := FileConn (sl_name sl) (sl_file sl) in
  let w' := queued w (fd o) (if decide (d = []) then rest else Msg d :: rest) in
  Accept w sl = (Ret c, w')
  ∧ (d ≠ [] → ∀ b, length d ≤ length b →
       Conn.Read w' c b
       = (Some (Os.ReadRes (length d) None (d ++ drop (length d) b)),
          queued w (fd o) rest)).
Proof.
  intros Hf Hc Hfd Hq c w'.
  assert (Ha : Accept w sl = (Ret c, w')).
  { rewrite (Accept_takes_front w sl o p s _ rest Hf Hc Hfd Hq) by reflexivity.
    unfold w', c. f_equal. f_equal.
    rewrite length_app. change (length (bytes Hello)) with 5.
    change (drop 5 (bytes Hello ++ d)) with d.
    destruct d as [|x d].
    - rewrite decide_False by (simpl; lia). by rewrite decide_True.
    - rewrite decide_True by (simpl; lia). by rewrite decide_False. }
  split; [exact Ha|]. intros Hd b Hb.
  unfold w'. rewrite decide_False by done.
  unfold Conn.Read. cbn [c fc_file].
  rewrite (Read_msg _ (sl_file sl) o p s d rest b); try done.
  - rewrite take_ge, decide_False by lia. by rewrite queued_queued.
  - simpl. apply lookup_insert_eq.
  - destruct d; [done|]. simpl in Hb. lia.
Qed.

(** A run of it: the client wrote "HelloPING" in one write. *)
Lemma Accept_consumes_exactly_the_token_witness :
  let w := serving [Msg (bytes "HelloPING")] in
  let c := FileConn sock 0 in
  let w' := queued w 3 [Msg (bytes "PING")] in
  Accept w server = (Ret c, w')
  ∧ (bytes "PING" ≠ [] → ∀ b, 4 ≤ length b →
       Conn.Read w' c b
       = (Some (Os.ReadRes 4 None (bytes "PING" ++ drop 4 b)), queued w 3 [])).
Proof.
  apply (Accept_consumes_exactly_the_token
           (serving [Msg (bytes "HelloPING")]) server (OsFile 3 sock false)
           0 false (bytes "PING") []).
  - vm_compute; reflexivity.
  - reflexivity.
  - vm_compute; reflexivity.
  - vm_compute; reflexivity.
Defined.

(** X14.  [Accept] scans a queued message five bytes at a time, from its
    start: a message in which no group of five bytes at an offset that
    is a multiple of five is the token is dropped whole, and [Accept]
    goes on with the next message. *)
Theorem Accept_drops_message_without_aligned_token sl o p s rest d : ∀ w,
  files w !! sl_file sl = Some o → closed o = false →
  fds w !! fd o = Some (PipeEnd p s) →
  incoming w !! fd o = Some (Msg d :: rest) →
  d ≠ [] →
  (∀ i, take 5 (drop (5 * i) d) ≠ bytes Hello) →
  Accept w sl = Accept (queued w (fd o) rest) sl.
Proof.
  remember (length d) as n eqn:Hn. revert d Hn.
  induction n as [n IH] using lt_wf_ind.
  intros d Hn w Hf Hc Hfd Hq Hd Hall.
  rewrite (Accept_skips_front w sl o p s d rest Hf Hc Hfd Hq Hd)
    by (specialize (Hall 0); by rewrite Nat.mul_0_r in Hall).
  case_decide as Hlen; [|reflexivity].
  rewrite (IH (length (drop 5 d)) ltac:(rewrite length_drop; lia)
             (drop 5 d) eq_refl (queued w (fd o) (Msg (drop 5 d) :: rest)));
    try done.
  - by rewrite queued_queued.
  - simpl. apply lookup_insert_eq.
  - intros E. apply (f_equal length) in E. rewrite length_drop in E.
    simpl in E. lia.
  - intros i. rewrite drop_drop.
    replace (5 + 5 * i) with (5 * S i) by lia. apply Hall.
Qed.

(** A run of it: twelve bytes of noise, then a token in a message of its
    own. *)
Lemma Accept_drops_message_without_aligned_token_witness :
  let w := serving [Msg (bytes "GET / HTTP/1"); Msg (bytes "Hello")] in
  Accept w server = Accept (queued w 3 [Msg (bytes "Hello")]) server.
Proof.
  intros w.
  apply (Accept_drops_message_without_aligned_token server
           (OsFile 3 sock false) 0 false [Msg (bytes "Hello")]
           (bytes "GET / HTTP/1") w).
  - vm_compute; reflexivity.
  - reflexivity.
  - vm_compute; reflexivity.
  - vm_compute; reflexivity.
  - discriminate.
  - intros [|[|[|i]]]; [vm_compute; discriminate..|].
    rewrite drop_ge by (change (length (bytes "GET / HTTP/1")) with 12; lia).
    discriminate.
Defined.

(** X15.  [Accept] does not resynchronise inside a message: a token that
    follows one to four other bytes in the same write is missed, and the
    whole message is dropped. *)
Theorem Accept_misses_shifted_token w sl o p s pre rest :
  files w !! sl_file sl = Some o → closed o = false →
  fds w !! fd o = Some (PipeEnd p s) →
  incoming w !! fd o = Some (Msg (pre ++ bytes Hello) :: rest) →
  0 < length pre < 5 →
  Accept w sl = Accept (queued w (fd o) rest) sl.
Proof.
  intros Hf Hc Hfd Hq Hpre.
  rewrite (Accept_skips_front w sl o p s _ rest Hf Hc Hfd Hq).
  - rewrite decide_True
      by (rewrite length_app; change (length (bytes Hello)) with 5; lia).
    rewrite (Accept_skips_partial _ sl o p s (drop 5 (pre ++ bytes Hello)) rest);
      try done.
    + by rewrite queued_queued.
    + simpl. apply lookup_insert_eq.
    + rewrite length_drop, length_app.
      change (length (bytes Hello)) with 5. lia.
  - destruct pre; [simpl in Hpre; lia|discriminate].
  - destruct pre as [|a [|b [|c [|e [|g t]]]]]; simpl in Hpre; try lia;
      cbv; congruence.
Qed.

(** A run of it: one byte before the token. *)
Lemma Accept_misses_shifted_token_witness :
  let w := serving [Msg (bytes "?Hello")] in
  Accept w server = Accept (queued w 3 []) server.
Proof.
  intros w.
  apply (Accept_misses_shifted_token w server (OsFile 3 sock false) 0 false
           (bytes "?") []).
  - vm_compute; reflexivity.
  - reflexivity.
  - vm_compute; reflexivity.
  - vm_compute; reflexivity.
  - simpl; lia.
Defined.

(** X16.  A read of no bytes (the peer wrote nothing, or hung up) ends
    [Accept] with [io.EOF], even when a whole token is queued behind
    it. *)
Theorem Accept_EOF w sl o p s rest :
  files w !! sl_file sl = Some o → closed o = false →
  fds w !! fd o = Some (PipeEnd p s) →
  incoming w !! fd o = Some (Msg [] :: rest) →
  Accept w sl = (Fail EOF, queued w (fd o) rest).
Proof.
  intros Hf Hc Hfd Hq. rewrite Accept_step.
  unfold Os.Read, Kernel.read. rewrite Hf, Hc, Hfd, Hq. simpl.
  reflexivity.
Qed.

Lemma Accept_EOF_witness :
  let w := serving [Msg []; Msg (bytes "Hello")] in
  Accept w server = (Fail EOF, queued w 3 [Msg (bytes "Hello")]).
Proof.
  intros w.
  apply (Accept_EOF w server (OsFile 3 sock false) 0 false).
  - vm_compute; reflexivity.
  - reflexivity.
  - vm_compute; reflexivity.
  - vm_compute; reflexivity.
Defined.

(** X17.  [Accept] reads from the listener's descriptor only: whatever
    it returns, the input queued for every other descriptor, /srv and
    the write schedules are untouched. *)
Theorem Accept_reads_own_queue_only w sl : ∀ o n,
  files w !! sl_file sl = Some o →
  n ≠ fd o →
  incoming (snd (Accept w sl)) !! n = incoming w !! n
  ∧ srv (snd (Accept w sl)) = srv w
  ∧ outgoing (snd (Accept w sl)) = outgoing w.
Proof.
  intros o n Hf Hn. split.
  - revert o n Hf Hn. funelim (Accept w sl); intros o n Hf Hn;
      match goal with
      | H : Os.Read ?w ?f ?b = _ |- _ =>
          pose proof (Os_Read_other_queue w f o b n Hf Hn) as Hq;
          pose proof (Os_Read_files w f b) as Hfiles;
          rewrite H in Hq, Hfiles
      end; simpl in Hq, Hfiles; [exact Hq..|].
    rewrite <- Hq.
    match goal with IH : ∀ o n, _ |- _ => apply (IH o n) end; [|exact Hn].
    by rewrite Hfiles.
  - rewrite Accept_only_incoming. done.
Qed.

(** A run of it: input is queued for descriptor 4 as well. *)
Lemma Accept_reads_own_queue_only_witness :
  let w := set_incoming (serving [Msg (bytes "Hello")])
             {[3 := [Msg (bytes "Hello")]; 4 := [Msg (bytes "other")]]} in
  incoming (snd (Accept w server)) !! 4 = incoming w !! 4
  ∧ srv (snd (Accept w server)) = srv w
  ∧ outgoing (snd (Accept w server)) = outgoing w.
Proof.
  intros w.
  apply (Accept_reads_own_queue_only w server (OsFile 3 sock false) 4).
  - vm_compute; reflexivity.
  - simpl; lia.
Defined.

(** X18.  The path given to [listen] is the address everywhere: the
    listener's [Addr] has [String()] equal to the path and [Network()]
    equal to "/srv", and a Conn accepted from it reports the path as
    both its local and its remote address. *)
Theorem addresses_are_the_path w p sl w1 v c v' :
  listen w p = (Ok sl, w1) →
  Accept v sl = (Ret c, v') →
  String (Addr sl) = p
  ∧ Network (Addr sl) = "/srv"
  ∧ Conn.LocalAddr c = p
  ∧ Conn.RemoteAddr c = p.
Proof.
  intros Hl Ha.
  destruct (listen_Ok_inv _ _ _ _ Hl) as (Hname & _).
  destruct (Accept_Ret_open _ _ _ _ Ha) as (_ & _ & _ & _ & _ & _ & ->).
  unfold String, Addr, Conn.LocalAddr, Conn.RemoteAddr. cbn [fc_name].
  by rewrite Hname.
Qed.

(** A run of it: the listener made at boot, with a token queued on its
    descriptor. *)
Lemma addresses_are_the_path_witness :
  String (Addr the_listener) = sock
  ∧ Network (Addr the_listener) = "/srv"
  ∧ Conn.LocalAddr (FileConn sock 1) = sock
  ∧ Conn.RemoteAddr (FileConn sock 1) = sock.
Proof.
  apply (addresses_are_the_path boot sock the_listener listening
           (queued listening 0 [Msg (bytes "Hello")]) (FileConn sock 1)
           (snd (Accept (queued listening 0 [Msg (bytes "Hello")]) the_listener))).
  - vm_compute; reflexivity.
  - vm_compute; reflexivity.
Defined.

(** X19.  [Accept] waits only when there is nothing left to read: if it
    has not returned, the listener's file is open on a pipe and the
    queue of its descriptor is empty (every message that was queued has
    been read and passed over). *)
Theorem Accept_blocks_on_empty_queue_only w sl : ∀ w',
  Accept w sl = (Block, w') →
  ∃ o p s, files w' !! sl_file sl = Some o ∧ closed o = false
           ∧ fds w' !! fd o = Some (PipeEnd p s)
           ∧ default [] (incoming w' !! fd o) = [].
Proof.
  funelim (Accept w sl); intros w' Hb; try discriminate.
  - injection Hb as <-.
    match goal with H : Os.Read _ _ _ = (None, _) |- _ =>
      destruct (Read_None_inv _ _ _ _ H) as (-> & Hex) end.
    exact Hex.
  - eauto.
Qed.

(** A run of it: two pieces of noise, then nothing. *)
Lemma Accept_blocks_on_empty_queue_only_witness :
  let w' := snd (Accept (serving [Msg (bytes "Hel"); Msg (bytes "lo")]) server) in
  ∃ o p s, files w' !! 0 = Some o ∧ closed o = false
           ∧ fds w' !! fd o = Some (PipeEnd p s)
           ∧ default [] (incoming w' !! fd o) = [].
Proof.
  intros w'.
  apply (Accept_blocks_on_empty_queue_only
           (serving [Msg (bytes "Hel"); Msg (bytes "lo")]) server w').
  vm_compute; reflexivity.
Defined.

End Extras.
